(** * The durable state machine of the curator: Apply and its command handlers

    A shallow embedding of [internal/curator/durable/fsm.go].  The handlers
    are pure functions from a transaction to a transaction and a result; the
    places where the Go code stops the process (a runtime panic or
    [log.Fatalf]) are outcomes of their own. *)

From stdpp Require Import base numbers option list sorting gmap.

Local Open Scope Z_scope.

(** ** Machine integers *)

Definition wrap (bits : Z) (x : Z) : Z := x `mod` 2 ^ bits.
Definition uint32 (x : Z) : Z := wrap 32 x.
Definition uint64 (x : Z) : Z := wrap 64 x.
Definition is_uint32 (x : Z) : Prop := 0 ≤ x < 2 ^ 32.

(** Go's [s[i]] for an integer index: [None] stands for the runtime's
    "index out of range". *)
Definition index {A} (s : list A) (i : Z) : option A :=
  if bool_decide (i < 0) then None else s !! Z.to_nat i.

(** Go's [len]. *)
Definition len {A} (s : list A) : Z := Z.of_nat (length s).

(** ** package core *)
Module core.

Definition PartitionID := Z.
Definition BlobKey := Z.
Definition TractKey := Z.
Definition TractserverID := Z.
Definition CuratorID := Z.

Definition BlobID : Type := PartitionID * BlobKey.
Definition BlobIDFromParts (p : PartitionID) (k : BlobKey) : BlobID := (p, k).

Record TractID := { Blob : BlobID; Index : TractKey }.

Record RSChunkID := { Partition : PartitionID; ID : Z }.

Inductive Error :=
| NoError
| ErrAlreadyExists
| ErrNoSuchBlob
| ErrNoSuchTract
| ErrInvalidArgument
| ErrExtendConflict
| ErrConflictingState
| ErrGenBlobID
| ErrReadOnlyMode
| ErrOther (code : Z).

Record TractInfo := {
  Tract : TractID;
  Version : Z;
  TSIDs : list TractserverID
}.

(** Modelled from the spec: the constant [core.MaxBlobKey] is not among the
    sources.  "BlobKey: 32-bit monotonic counter within a partition.  A
    reserved max value marks the partition as full." *)
Definition MaxBlobKey : BlobKey := 2 ^ 32 - 1.

(** Modelled from the spec: the constant [core.RSPartition] is not among the
    sources.  "The high 2 bits are a type tag"; the RS partitions of the tests
    and of scenario S6 are 0x80000555 and 0x80000007, that is tag 2. *)
Definition RSPartition : Z := 2.

(** What the handlers use of package core and neither the sources nor the
    spec fix: the largest RS chunk key [core.MaxRSChunkKey] and the validity
    test of a curator id, [CuratorID.IsValid]. *)
Class Decls := {
  MaxRSChunkKey : Z;
  IsValid : CuratorID → bool
}.

End core.

Global Instance Error_eq_dec : EqDecision core.Error.
Proof. solve_decision. Defined.

(** ** package statepb: the stored records *)
Module pb.

(** Modelled from the spec: the generated declaration of [pb.Tract] is not
    among the sources.  "Tract record: hosts (an ordered list of
    TractserverIDs) and a monotonic 32-bit version." *)
Record Tract := {
  Hosts : list core.TractserverID;
  Version : Z
}.

(** Modelled from the spec: the generated declaration of [pb.Blob] is not
    among the sources.  The fields are those of the spec's Blob record that
    the handlers set or read: replication factor, placement hint,
    modification and access times, optional expiry, optional soft-delete
    timestamp, user metadata, storage class and the ordered sequence of
    tracts.  A field that CreateBlob sets through a pointer is optional,
    [None] being the nil pointer; the getter of an unset field reads the zero
    value. *)
Record Blob := {
  Repl : option Z;
  Hint : option Z;
  Mtime : option Z;
  Atime : option Z;
  Expires : option Z;
  Deleted : option Z;
  Metadata : list Byte.byte;
  Storage : option Z;
  Tracts : list Tract
}.

Definition GetRepl (b : Blob) : Z := default 0 (Repl b).

Definition set_Tracts (b : Blob) (ts : list Tract) : Blob :=
  {| Repl := Repl b; Hint := Hint b; Mtime := Mtime b; Atime := Atime b;
     Expires := Expires b; Deleted := Deleted b; Metadata := Metadata b;
     Storage := Storage b; Tracts := ts |}.

(** Modelled from the spec: the generated declaration of [pb.Partition] is
    not among the sources.  "Partition record: {id, next_blob_key,
    next_rs_chunk_key}."  The handlers set the three fields through
    [proto.Uint32] and [proto.Uint64] and read them through a pointer or a
    getter, so each is optional; [addPartition] leaves next_rs_chunk_key
    unset. *)
Record Partition := {
  Id : option Z;
  NextBlobKey : option Z;
  NextRsChunkKey : option Z
}.

Definition GetId (p : Partition) : Z := default 0 (Id p).
Definition GetNextBlobKey (p : Partition) : Z := default 0 (NextBlobKey p).
Definition GetNextRsChunkKey (p : Partition) : Z := default 0 (NextRsChunkKey p).

(** Modelled from the spec: "a list of EncodedTract entries {TractID,
    offset, length}" and "the chunk record stores a host per piece"; the
    declarations are not among the sources. *)
Record EncodedTract := {
  ET_ID : core.TractID;
  ET_Offset : Z;
  ET_Length : Z
}.

Record RSChunk := {
  RS_Storage : Z;
  RS_Hosts : list core.TractserverID;
  RS_Data : list (list EncodedTract)
}.

End pb.

(** Modelled from the spec: the type of the version field is declared with
    [pb.Tract]; the spec has "a monotonic 32-bit version". *)
Definition VersionBits : Z := 32.

(** ** package state: the store and its transactions

    Of package state the sources have the test file only; what [Apply] and
    the handlers call is modelled from the spec, definition by
    definition. *)
Module state.

(** Modelled from the spec: the store behind package state, with the buckets
    of the persisted layout.  "Required buckets: meta (curator-id,
    applied-index, tsid-cache), partition, blob, rschunk"; the read-only flag
    is the key meta/read_only.  The TSID cache is absent until it is
    enabled. *)
Record State := {
  applied_index : Z;
  curator_id : core.CuratorID;
  read_only : bool;
  tsids : option (gset core.TractserverID);
  partitions : gmap Z pb.Partition;
  blobs : gmap core.BlobID pb.Blob;
  rschunks : gmap (Z * Z) pb.RSChunk
}.

Definition set_applied_index (s : State) (i : Z) : State :=
  {| applied_index := i; curator_id := curator_id s; read_only := read_only s;
     tsids := tsids s; partitions := partitions s; blobs := blobs s;
     rschunks := rschunks s |}.
Definition set_curator_id (s : State) (c : core.CuratorID) : State :=
  {| applied_index := applied_index s; curator_id := c; read_only := read_only s;
     tsids := tsids s; partitions := partitions s; blobs := blobs s;
     rschunks := rschunks s |}.
Definition set_read_only (s : State) (b : bool) : State :=
  {| applied_index := applied_index s; curator_id := curator_id s; read_only := b;
     tsids := tsids s; partitions := partitions s; blobs := blobs s;
     rschunks := rschunks s |}.
Definition set_tsids (s : State) (c : option (gset core.TractserverID)) : State :=
  {| applied_index := applied_index s; curator_id := curator_id s;
     read_only := read_only s; tsids := c; partitions := partitions s;
     blobs := blobs s; rschunks := rschunks s |}.
Definition set_partitions (s : State) (m : gmap Z pb.Partition) : State :=
  {| applied_index := applied_index s; curator_id := curator_id s;
     read_only := read_only s; tsids := tsids s; partitions := m;
     blobs := blobs s; rschunks := rschunks s |}.
Definition set_blobs (s : State) (m : gmap core.BlobID pb.Blob) : State :=
  {| applied_index := applied_index s; curator_id := curator_id s;
     read_only := read_only s; tsids := tsids s; partitions := partitions s;
     blobs := m; rschunks := rschunks s |}.

(** Modelled from the spec: the transaction type of package state.  A
    transaction is the index it was opened at (the index a write transaction
    commits) and its view of the store: "a write transaction sees its own
    writes"; [Apply] runs one transaction at a time. *)
Record Txn := { txn_index : Z; db : State }.

Definition on_db (f : State → State) (t : Txn) : Txn :=
  {| txn_index := txn_index t; db := f (db t) |}.

(** Modelled from the spec: "WriteTxn(index)". *)
Definition WriteTxn (s : State) (index : Z) : Txn :=
  {| txn_index := index; db := s |}.

(** Modelled from the spec: "ReadOnlyTxn", a snapshot of the store as of its
    start. *)
Definition ReadOnlyTxn (s : State) : Txn :=
  {| txn_index := applied_index s; db := s |}.

(** Modelled from the spec: "On commit: writes the applied-index key = index
    and durably commits."  [Apply] opens a write transaction only at an index
    above the stored one.  Committing a read-only transaction releases the
    snapshot and changes nothing, so it has no counterpart here. *)
Definition Commit (t : Txn) : State := set_applied_index (db t) (txn_index t).

(** Modelled from the spec: "GetIndex", the applied index as stored. *)
Definition GetIndex (t : Txn) : Z := applied_index (db t).

(** Modelled from the spec: "GetCuratorID" and "SetCuratorID" on the key
    meta/curator_id. *)
Definition GetCuratorID (t : Txn) : core.CuratorID := curator_id (db t).
Definition SetCuratorID (id : core.CuratorID) (t : Txn) : Txn :=
  on_db (λ s, set_curator_id s id) t.

(** Modelled from the spec: "GetReadOnlyMode" and "SetReadOnlyMode" on the
    key meta/read_only. *)
Definition GetReadOnlyMode (t : Txn) : bool := read_only (db t).
Definition SetReadOnlyMode (b : bool) (t : Txn) : Txn :=
  on_db (λ s, set_read_only s b) t.

(** Modelled from the spec: "GetPartition(id)"; the key of the bucket is
    "partition/<u32 BE id>". *)
Definition GetPartition (id : core.PartitionID) (t : Txn) : option pb.Partition :=
  partitions (db t) !! id.

(** Modelled from the spec: "PutPartition", which stores the record under
    the id it carries. *)
Definition PutPartition (p : pb.Partition) (t : Txn) : Txn :=
  on_db (λ s, set_partitions s (<[pb.GetId p := p]> (partitions s))) t.

Definition by_key : relation (Z * pb.Partition) := λ x y, x.1 ≤ y.1.
Global Instance by_key_dec x y : Decision (by_key x y).
Proof. unfold by_key. apply _. Defined.

(** Modelled from the spec: "GetPartitions() (ordered by id)", the records of
    the bucket in the order of their keys. *)
Definition GetPartitions (t : Txn) : list pb.Partition :=
  (merge_sort by_key (map_to_list (partitions (db t)))).*2.

(** Modelled from the spec: "GetBlobAll(id) (returns soft-deleted too)". *)
Definition GetBlobAll (id : core.BlobID) (t : Txn) : option pb.Blob :=
  blobs (db t) !! id.

(** Modelled from the spec: "GetBlob(id) (returns nil if missing or
    soft-deleted)"; the test of package state checks the same after
    DeleteBlob. *)
Definition GetBlob (id : core.BlobID) (t : Txn) : option pb.Blob :=
  match blobs (db t) !! id with
  | Some b => match pb.Deleted b with Some _ => None | None => Some b end
  | None => None
  end.

Definition blob_hosts (b : pb.Blob) : gset core.TractserverID :=
  list_to_set (concat (pb.Hosts <$> pb.Tracts b)).

(** Modelled from the spec: "PutBlob", which writes the record and "must
    additively maintain the cache when it exists". *)
Definition PutBlob (id : core.BlobID) (b : pb.Blob) (t : Txn) : Txn :=
  on_db (λ s, set_tsids (set_blobs s (<[id := b]> (blobs s)))
                        ((λ c, c ∪ blob_hosts b) <$> tsids s)) t.

Record UpdateTime := { Blob : core.BlobID; MTime : Z; ATime : Z }.

(** The operations of package state that the handlers only pass their
    arguments to; the properties below hold whatever they do to the buckets.
    Each works on the transaction's view of the store and leaves the index of
    the transaction alone; [checksum_blobs] is the fold "over a contiguous
    slice of blob-bucket records", giving the checksum and the next start
    key. *)
Class Layer := {
  delete_blob : core.BlobID → Z → State → State * core.Error;
  undelete_blob : core.BlobID → State → State * core.Error;
  finish_delete_blobs : list core.BlobID → State → State * core.Error;
  set_blob_metadata : core.BlobID → list Byte.byte → State → State * core.Error;
  batch_update_times : list UpdateTime → State → State;
  put_rs_chunk : core.RSChunkID → Z → list core.TractserverID →
                 list (list pb.EncodedTract) → State → State * core.Error;
  update_rs_hosts : core.RSChunkID → list core.TractserverID →
                    State → State * core.Error;
  update_storage_class : core.BlobID → Z → State → State * core.Error;
  create_tsid_cache : State → State * core.Error;
  checksum_blobs : gmap core.BlobID pb.Blob → core.BlobID → Z → Z * core.BlobID
}.

Definition run_db {E} (f : State → State * E) (t : Txn) : Txn * E :=
  let '(s, e) := f (db t) in ({| txn_index := txn_index t; db := s |}, e).

Section WithLayer.
Context `{!Layer}.

Definition DeleteBlob (id : core.BlobID) (when : Z) := run_db (delete_blob id when).
Definition UndeleteBlob (id : core.BlobID) := run_db (undelete_blob id).
Definition FinishDeleteBlobs (ids : list core.BlobID) :=
  run_db (finish_delete_blobs ids).
Definition SetBlobMetadata (id : core.BlobID) (md : list Byte.byte) :=
  run_db (set_blob_metadata id md).
Definition BatchUpdateTimes (ups : list UpdateTime) (t : Txn) : Txn :=
  on_db (batch_update_times ups) t.
Definition PutRSChunk (id : core.RSChunkID) (storage : Z)
    (hosts : list core.TractserverID) (data : list (list pb.EncodedTract)) :=
  run_db (put_rs_chunk id storage hosts data).
Definition UpdateRSHosts (id : core.RSChunkID) (hosts : list core.TractserverID) :=
  run_db (update_rs_hosts id hosts).
Definition UpdateStorageClass (id : core.BlobID) (storage : Z) :=
  run_db (update_storage_class id storage).
Definition CreateTSIDCache := run_db create_tsid_cache.
Definition Checksum (start : core.BlobID) (n : Z) (t : Txn) : Z * core.BlobID :=
  checksum_blobs (blobs (db t)) start n.
End WithLayer.

End state.

(** ** package raft: a committed log entry *)
Module raft.

Record Entry := { Index : Z; Cmd : list Byte.byte }.

End raft.

(** ** package durable *)

(** How a call ends: it returns (leaving state [s] and value [a]); a Go
    runtime panic unwinds it, [s] being what the deferred calls that ran have
    left behind; or [log.Fatalf] exits the process on the spot, where no
    deferred call runs. *)
Inductive Outcome (S A : Type) : Type :=
| Done (s : S) (a : A)
| Panic (s : S)
| Fatal.
Arguments Done {S A} s a.
Arguments Panic {S A} s.
Arguments Fatal {S A}.

(** *** Commands and results *)

Module ChecksumCommand.
Record t := { Start : core.BlobID; N : Z }.
End ChecksumCommand.

Module VerifyChecksumCommand.
Record t := { Index : Z; Checksum : Z }.
End VerifyChecksumCommand.

Module SetReadOnlyModeCommand.
Record t := { ReadOnly : bool }.
End SetReadOnlyModeCommand.

Record ChecksumResult := {
  cr_Next : core.BlobID;
  cr_Checksum : Z;
  cr_Index : Z
}.

Record SetRegistrationResult := { srr_ID : core.CuratorID }.
Record AddPartitionResult := { apr_Err : core.Error }.
Record SyncPartitionsResult := { spr_Err : core.Error }.
Record DeleteBlobResult := { dbr_Err : core.Error }.
Record UndeleteBlobResult := { ubr_Err : core.Error }.

Module CreateBlobResult.
Record t := { ID : core.BlobID; Err : core.Error }.
End CreateBlobResult.

Module ExtendBlobResult.
Record t := { Err : core.Error; NewSize : Z }.
End ExtendBlobResult.

Module ChangeTractResult.
Record t := { Err : core.Error; Info : core.TractInfo }.
End ChangeTractResult.

Module AllocateRSChunkIDsResult.
Record t := { ID : core.RSChunkID; Err : core.Error }.
End AllocateRSChunkIDsResult.

(** Zero values of the Go types that a result leaves unset. *)
Definition zeroBlobID : core.BlobID := (0, 0).
Definition zeroTractInfo : core.TractInfo :=
  {| core.Tract := {| core.Blob := zeroBlobID; core.Index := 0 |};
     core.Version := 0; core.TSIDs := [] |}.
Definition zeroRSChunkID : core.RSChunkID :=
  {| core.Partition := 0; core.ID := 0 |}.

(** [addPartition] *)
Definition addPartition (id : core.PartitionID) (txn : state.Txn)
    : state.Txn * core.Error :=
  match state.GetPartition id txn with
  | Some _ => (txn, core.ErrAlreadyExists)
  | None =>
      (state.PutPartition
         {| pb.Id := Some (uint32 id); pb.NextBlobKey := Some 1;
            pb.NextRsChunkKey := None |} txn,
       core.NoError)
  end.

Module SetRegistrationCommand.
Record t := { ID : core.CuratorID }.

Definition apply `{!core.Decls} (cmd : t) (txn : state.Txn)
    : state.Txn * SetRegistrationResult :=
  let txn :=
    if negb (core.IsValid (state.GetCuratorID txn))
    then state.SetCuratorID (ID cmd) txn else txn in
  (txn, {| srr_ID := state.GetCuratorID txn |}).
End SetRegistrationCommand.

Module AddPartitionCommand.
Record t := { ID : core.PartitionID }.

Definition apply (cmd : t) (txn : state.Txn) : state.Txn * AddPartitionResult :=
  let '(txn, err) := addPartition (ID cmd) txn in (txn, {| apr_Err := err |}).
End AddPartitionCommand.

Module SyncPartitionsCommand.
Record t := { Partitions : list core.PartitionID }.

Definition apply (cmd : t) (txn : state.Txn) : state.Txn * SyncPartitionsResult :=
  (foldl (λ txn id, (addPartition id txn).1) txn (Partitions cmd),
   {| spr_Err := core.NoError |}).
End SyncPartitionsCommand.

Module CreateBlobCommand.
Record t := { Repl : Z; Hint : Z; InitialTime : Z; Expires : Z }.

Definition apply (cmd : t) (txn : state.Txn)
    : Outcome state.Txn CreateBlobResult.t :=
  match list_find (λ p, pb.GetNextBlobKey p ≠ core.MaxBlobKey)
                  (state.GetPartitions txn) with
  | None =>
      Done txn {| CreateBlobResult.ID := zeroBlobID;
                  CreateBlobResult.Err := core.ErrGenBlobID |}
  | Some (_, partition) =>
      match pb.NextBlobKey partition with
      | None => Panic txn
      | Some next =>
          let key := next in
          let partition :=
            {| pb.Id := pb.Id partition;
               pb.NextBlobKey := Some (uint32 (next + 1));
               pb.NextRsChunkKey := pb.NextRsChunkKey partition |} in
          let txn := state.PutPartition partition txn in
          let ID := core.BlobIDFromParts (pb.GetId partition) key in
          let blob :=
            {| pb.Repl := Some (uint32 (Repl cmd));
               pb.Hint := Some (Hint cmd);
               pb.Mtime := Some (InitialTime cmd);
               pb.Atime := Some (InitialTime cmd);
               pb.Expires :=
                 if bool_decide (Expires cmd ≠ 0) then Some (Expires cmd) else None;
               pb.Deleted := None;
               pb.Metadata := [];
               pb.Storage := None;
               pb.Tracts := [] |} in
          let txn := state.PutBlob ID blob txn in
          Done txn {| CreateBlobResult.ID := ID;
                      CreateBlobResult.Err := core.NoError |}
      end
  end.
End CreateBlobCommand.

Module DeleteBlobCommand.
Record t := { ID : core.BlobID; When : Z }.

Definition apply `{!state.Layer} (cmd : t) (txn : state.Txn)
    : state.Txn * DeleteBlobResult :=
  let '(txn, err) := state.DeleteBlob (ID cmd) (When cmd) txn in
  (txn, {| dbr_Err := err |}).
End DeleteBlobCommand.

Module UndeleteBlobCommand.
Record t := { ID : core.BlobID }.

Definition apply `{!state.Layer} (cmd : t) (txn : state.Txn)
    : state.Txn * UndeleteBlobResult :=
  let '(txn, err) := state.UndeleteBlob (ID cmd) txn in
  (txn, {| ubr_Err := err |}).
End UndeleteBlobCommand.

Module FinishDeleteCommand.
Record t := { Blobs : list core.BlobID }.

Definition apply `{!state.Layer} (cmd : t) (txn : state.Txn)
    : state.Txn * core.Error :=
  state.FinishDeleteBlobs (Blobs cmd) txn.
End FinishDeleteCommand.

Module SetMetadataCommand.
Record t := { ID : core.BlobID; Metadata : list Byte.byte }.

Definition apply `{!state.Layer} (cmd : t) (txn : state.Txn)
    : state.Txn * core.Error :=
  state.SetBlobMetadata (ID cmd) (Metadata cmd) txn.
End SetMetadataCommand.

Module ExtendBlobCommand.
Record t := {
  ID : core.BlobID;
  FirstTractKey : core.TractKey;
  Hosts : list (list core.TractserverID)
}.

Definition fail (txn : state.Txn) (e : core.Error) : state.Txn * ExtendBlobResult.t :=
  (txn, {| ExtendBlobResult.Err := e; ExtendBlobResult.NewSize := 0 |}).

Definition apply (cmd : t) (txn : state.Txn) : state.Txn * ExtendBlobResult.t :=
  match state.GetBlob (ID cmd) txn with
  | None => fail txn core.ErrNoSuchBlob
  | Some blob =>
      if bool_decide (FirstTractKey cmd ≠ len (pb.Tracts blob)) then
        fail txn core.ErrExtendConflict
      else if bool_decide (Exists (λ h, len h ≠ pb.GetRepl blob) (Hosts cmd)) then
        fail txn core.ErrInvalidArgument
      else
        let tracts :=
          foldl (λ tracts hosts,
                   tracts ++ [ {| pb.Hosts := hosts; pb.Version := 1 |} ])
                (pb.Tracts blob) (Hosts cmd) in
        let blob := pb.set_Tracts blob tracts in
        let txn := state.PutBlob (ID cmd) blob txn in
        (txn, {| ExtendBlobResult.Err := core.NoError;
                 ExtendBlobResult.NewSize := len (pb.Tracts blob) |})
  end.
End ExtendBlobCommand.

Module ChangeTractCommand.
Record t := {
  ID : core.TractID;
  NewHosts : list core.TractserverID;
  NewVersion : Z
}.

Definition fail (txn : state.Txn) (e : core.Error)
    : Outcome state.Txn ChangeTractResult.t :=
  Done txn {| ChangeTractResult.Err := e; ChangeTractResult.Info := zeroTractInfo |}.

Definition apply (cmd : t) (txn : state.Txn)
    : Outcome state.Txn ChangeTractResult.t :=
  match state.GetBlob (core.Blob (ID cmd)) txn with
  | None => fail txn core.ErrNoSuchBlob
  | Some blob =>
      if bool_decide (core.Index (ID cmd) > len (pb.Tracts blob)) then
        fail txn core.ErrNoSuchTract
      else
        match index (pb.Tracts blob) (core.Index (ID cmd)) with
        | None => Panic txn
        | Some tract =>
            if bool_decide (len (pb.Hosts tract) ≠ len (NewHosts cmd)) then
              fail txn core.ErrInvalidArgument
            else if bool_decide
                      (wrap VersionBits (pb.Version tract + 1) ≠ NewVersion cmd) then
              fail txn core.ErrConflictingState
            else
              let tract :=
                {| pb.Hosts := NewHosts cmd;
                   pb.Version := wrap VersionBits (pb.Version tract + 1) |} in
              let blob :=
                pb.set_Tracts blob
                  (<[Z.to_nat (core.Index (ID cmd)) := tract]> (pb.Tracts blob)) in
              let txn := state.PutBlob (core.Blob (ID cmd)) blob txn in
              let info :=
                {| core.Tract := ID cmd;
                   core.Version := pb.Version tract;
                   core.TSIDs := pb.Hosts tract |} in
              Done txn {| ChangeTractResult.Err := core.NoError;
                          ChangeTractResult.Info := info |}
        end
  end.
End ChangeTractCommand.

Module UpdateTimesCommand.
Record t := { Updates : list state.UpdateTime }.

Definition apply `{!state.Layer} (cmd : t) (txn : state.Txn)
    : state.Txn * core.Error :=
  (state.BatchUpdateTimes (Updates cmd) txn, core.NoError).
End UpdateTimesCommand.

Module AllocateRSChunkIDsCommand.
Record t := { N : Z }.

(** The result of the successful case leaves [Err] at its zero value,
    [NoError]. *)
Definition apply `{!core.Decls} (cmd : t) (txn : state.Txn)
    : Outcome state.Txn AllocateRSChunkIDsResult.t :=
  match list_find
          (λ p, uint64 (pb.GetNextRsChunkKey p + uint64 (N cmd)) ≤ core.MaxRSChunkKey)
          (state.GetPartitions txn) with
  | None =>
      Done txn {| AllocateRSChunkIDsResult.ID := zeroRSChunkID;
                  AllocateRSChunkIDsResult.Err := core.ErrGenBlobID |}
  | Some (_, part) =>
      let key := pb.GetNextRsChunkKey part in
      let key := if bool_decide (key = 0) then 1 else key in
      let part' :=
        {| pb.Id := pb.Id part;
           pb.NextBlobKey := pb.NextBlobKey part;
           pb.NextRsChunkKey := Some (uint64 (key + uint64 (N cmd))) |} in
      let txn := state.PutPartition part' txn in
      match pb.Id part with
      | None => Panic txn
      | Some id =>
          Done txn
            {| AllocateRSChunkIDsResult.ID :=
                 {| core.Partition :=
                      Z.lor (uint32 (Z.shiftl core.RSPartition 30)) id;
                    core.ID := key |};
               AllocateRSChunkIDsResult.Err := core.NoError |}
      end
  end.
End AllocateRSChunkIDsCommand.

Module CommitRSChunkCommand.
Record t := {
  ID : core.RSChunkID;
  Storage : Z;
  Hosts : list core.TractserverID;
  Data : list (list pb.EncodedTract)
}.

Definition apply `{!state.Layer} (cmd : t) (txn : state.Txn)
    : state.Txn * core.Error :=
  state.PutRSChunk (ID cmd) (Storage cmd) (Hosts cmd) (Data cmd) txn.
End CommitRSChunkCommand.

Module UpdateRSHostsCommand.
Record t := { ID : core.RSChunkID; Hosts : list core.TractserverID }.

Definition apply `{!state.Layer} (cmd : t) (txn : state.Txn)
    : state.Txn * core.Error :=
  state.UpdateRSHosts (ID cmd) (Hosts cmd) txn.
End UpdateRSHostsCommand.

Module UpdateStorageClassCommand.
Record t := { ID : core.BlobID; Storage : Z }.

Definition apply `{!state.Layer} (cmd : t) (txn : state.Txn)
    : state.Txn * core.Error :=
  state.UpdateStorageClass (ID cmd) (Storage cmd) txn.
End UpdateStorageClassCommand.

Module CreateTSIDCacheCommand.
Definition apply `{!state.Layer} (txn : state.Txn) : state.Txn * core.Error :=
  state.CreateTSIDCache txn.
End CreateTSIDCacheCommand.

(** The dynamic type of a decoded command; [OtherCommand] is any value that
    none of the type switches of [Apply] lists. *)
Inductive Command :=
| Checksum (c : ChecksumCommand.t)
| VerifyChecksum (c : VerifyChecksumCommand.t)
| SetReadOnlyMode (c : SetReadOnlyModeCommand.t)
| SetRegistration (c : SetRegistrationCommand.t)
| AddPartition (c : AddPartitionCommand.t)
| SyncPartitions (c : SyncPartitionsCommand.t)
| CreateBlob (c : CreateBlobCommand.t)
| DeleteBlob (c : DeleteBlobCommand.t)
| FinishDelete (c : FinishDeleteCommand.t)
| UndeleteBlob (c : UndeleteBlobCommand.t)
| SetMetadata (c : SetMetadataCommand.t)
| ExtendBlob (c : ExtendBlobCommand.t)
| ChangeTract (c : ChangeTractCommand.t)
| UpdateTimes (c : UpdateTimesCommand.t)
| AllocateRSChunkIDs (c : AllocateRSChunkIDsCommand.t)
| CommitRSChunk (c : CommitRSChunkCommand.t)
| UpdateRSHosts (c : UpdateRSHostsCommand.t)
| UpdateStorageClass (c : UpdateStorageClassCommand.t)
| CreateTSIDCache
| OtherCommand.

(** The decoder of the entry payload, [bytesToCmd], is not among the
    sources; the properties hold for any decoder. *)
Class Decoder := bytesToCmd : list Byte.byte → Command.

(** What [Apply] returns as [interface{}]: nil or a value of one of the
    result types. *)
Inductive Result :=
| Nil
| OfChecksum (r : ChecksumResult)
| OfError (e : core.Error)
| OfSetRegistration (r : SetRegistrationResult)
| OfAddPartition (r : AddPartitionResult)
| OfSyncPartitions (r : SyncPartitionsResult)
| OfCreateBlob (r : CreateBlobResult.t)
| OfDeleteBlob (r : DeleteBlobResult)
| OfUndeleteBlob (r : UndeleteBlobResult)
| OfExtendBlob (r : ExtendBlobResult.t)
| OfChangeTract (r : ChangeTractResult.t)
| OfAllocateRSChunkIDs (r : AllocateRSChunkIDsResult.t).

(** *** The state handler and [Apply] *)

(** The fields of the handler that [Apply] reads or writes: the store and
    the cached pair of the last checksum. *)
Record StateHandler := {
  h_state : state.State;
  h_checksum : Z;
  h_checksumIndex : Z
}.

Definition set_state (h : StateHandler) (s : state.State) : StateHandler :=
  {| h_state := s; h_checksum := h_checksum h;
     h_checksumIndex := h_checksumIndex h |}.

Definition LocalReadOnlyTxn (h : StateHandler) : state.Txn :=
  state.ReadOnlyTxn (h_state h).

(** What a fresh read-only transaction on the store of [h] reports as the
    applied index. *)
Definition GetIndex (h : StateHandler) : Z :=
  state.GetIndex (LocalReadOnlyTxn h).

Definition checksumRequest `{!state.Layer} (h : StateHandler)
    (c : ChecksumCommand.t) (rtx : state.Txn) (index : Z)
    : StateHandler * ChecksumResult :=
  let '(cksum, next) :=
    state.Checksum (ChecksumCommand.Start c) (ChecksumCommand.N c) rtx in
  ({| h_state := h_state h; h_checksum := cksum; h_checksumIndex := index |},
   {| cr_Next := next; cr_Checksum := cksum; cr_Index := index |}).

Definition verifyChecksum (h : StateHandler) (c : VerifyChecksumCommand.t)
    : Outcome StateHandler unit :=
  if bool_decide (h_checksumIndex h ≠ VerifyChecksumCommand.Index c) then
    Done h tt
  else if bool_decide (h_checksum h ≠ VerifyChecksumCommand.Checksum c) then
    Fatal
  else
    Done h tt.

Definition returns {R} (wrap : R → Result) (x : state.Txn * R)
    : Outcome state.Txn Result :=
  Done x.1 (wrap x.2).

Definition returned {R} (wrap : R → Result) (o : Outcome state.Txn R)
    : Outcome state.Txn Result :=
  match o with
  | Done txn r => Done txn (wrap r)
  | Panic txn => Panic txn
  | Fatal => Fatal
  end.

Section Apply.
Context `{!core.Decls, !state.Layer, !Decoder}.

(** The last type switch of [Apply], with the [log.Fatalf] that follows
    it. *)
Definition dispatch (cmd : Command) (txn : state.Txn) : Outcome state.Txn Result :=
  match cmd with
  | SetRegistration c => returns OfSetRegistration (SetRegistrationCommand.apply c txn)
  | AddPartition c => returns OfAddPartition (AddPartitionCommand.apply c txn)
  | SyncPartitions c => returns OfSyncPartitions (SyncPartitionsCommand.apply c txn)
  | CreateBlob c => returned OfCreateBlob (CreateBlobCommand.apply c txn)
  | DeleteBlob c => returns OfDeleteBlob (DeleteBlobCommand.apply c txn)
  | FinishDelete c => returns OfError (FinishDeleteCommand.apply c txn)
  | UndeleteBlob c => returns OfUndeleteBlob (UndeleteBlobCommand.apply c txn)
  | SetMetadata c => returns OfError (SetMetadataCommand.apply c txn)
  | ExtendBlob c => returns OfExtendBlob (ExtendBlobCommand.apply c txn)
  | ChangeTract c => returned OfChangeTract (ChangeTractCommand.apply c txn)
  | UpdateTimes c => returns OfError (UpdateTimesCommand.apply c txn)
  | AllocateRSChunkIDs c =>
      returned OfAllocateRSChunkIDs (AllocateRSChunkIDsCommand.apply c txn)
  | CommitRSChunk c => returns OfError (CommitRSChunkCommand.apply c txn)
  | UpdateRSHosts c => returns OfError (UpdateRSHostsCommand.apply c txn)
  | UpdateStorageClass c => returns OfError (UpdateStorageClassCommand.apply c txn)
  | CreateTSIDCache => returns OfError (CreateTSIDCacheCommand.apply txn)
  | Checksum _ | VerifyChecksum _ | SetReadOnlyMode _ | OtherCommand => Fatal
  end.

(** The part of [Apply] that runs inside the write transaction. *)
Definition applyWrite (cmd : Command) (txn : state.Txn) : Outcome state.Txn Result :=
  match cmd with
  | SetReadOnlyMode c =>
      Done (state.SetReadOnlyMode (SetReadOnlyModeCommand.ReadOnly c) txn)
           (OfError core.NoError)
  | _ =>
      if state.GetReadOnlyMode txn then Done txn (OfError core.ErrReadOnlyMode)
      else dispatch cmd txn
  end.

(** [Apply].  The write transaction is committed by a deferred call: it runs
    when the function returns and when a panic unwinds it, and it does not
    run when [log.Fatalf] exits. *)
Definition Apply (h : StateHandler) (ent : raft.Entry)
    : Outcome StateHandler Result :=
  let rtx := LocalReadOnlyTxn h in
  let txnIndex := state.GetIndex rtx in
  if bool_decide (raft.Index ent ≤ txnIndex) then Done h Nil
  else
    let cmd := bytesToCmd (raft.Cmd ent) in
    match cmd with
    | Checksum c =>
        let '(h, res) := checksumRequest h c rtx (raft.Index ent) in
        Done h (OfChecksum res)
    | VerifyChecksum c =>
        match verifyChecksum h c with
        | Done h _ => Done h Nil
        | Panic h => Panic h
        | Fatal => Fatal
        end
    | _ =>
        let txn := state.WriteTxn (h_state h) (raft.Index ent) in
        match applyWrite cmd txn with
        | Done txn res => Done (set_state h (state.Commit txn)) res
        | Panic txn => Panic (set_state h (state.Commit txn))
        | Fatal => Fatal
        end
    end.

End Apply.

(** ** Vocabulary of the statements *)

(** The tract ExtendBlob appends for a host vector. *)
Definition new_tract (hosts : list core.TractserverID) : pb.Tract :=
  {| pb.Hosts := hosts; pb.Version := 1 |}.

(** The blob an accepted ExtendBlob writes back. *)
Definition extended (blob : pb.Blob) (hs : list (list core.TractserverID)) : pb.Blob :=
  pb.set_Tracts blob (pb.Tracts blob ++ (new_tract <$> hs)).

(** The tract and the blob an accepted ChangeTract writes back. *)
Definition changed_tract (cmd : ChangeTractCommand.t) (tract : pb.Tract) : pb.Tract :=
  {| pb.Hosts := ChangeTractCommand.NewHosts cmd;
     pb.Version := wrap VersionBits (pb.Version tract + 1) |}.

Definition changed_blob (cmd : ChangeTractCommand.t) (blob : pb.Blob)
    (tract : pb.Tract) : pb.Blob :=
  pb.set_Tracts blob
    (<[Z.to_nat (core.Index (ChangeTractCommand.ID cmd)) := changed_tract cmd tract]>
       (pb.Tracts blob)).

(** Every record of the partition bucket carries the id it is stored
    under, as the records [addPartition] writes do. *)
Definition keyed_by_id (s : state.State) : Prop :=
  ∀ k p, state.partitions s !! k = Some p → pb.Id p = Some k.

(** Every partition has its 32-bit next_blob_key set. *)
Definition blob_keys_set (s : state.State) : Prop :=
  ∀ k p, state.partitions s !! k = Some p →
         ∃ next, pb.NextBlobKey p = Some next ∧ is_uint32 next.

(** The two together: the shape of the partition bucket that the handlers
    keep up. *)
Definition partitions_ok (s : state.State) : Prop :=
  keyed_by_id s ∧ blob_keys_set s.

(** "next_blob_key < MaxBlobKey (i.e. non-full)". *)
Definition non_full (p : pb.Partition) : Prop :=
  pb.GetNextBlobKey p < core.MaxBlobKey.

(** Adding [n] to a counter of the partition bucket stays within 64 bits. *)
Definition rs_keys_in_range (n : Z) (s : state.State) : Prop :=
  0 ≤ n ∧
  ∀ k p, state.partitions s !! k = Some p →
         0 ≤ pb.GetNextRsChunkKey p ∧ pb.GetNextRsChunkKey p + n < 2 ^ 64 - 1.

(** "next_rs_chunk_key + N ≤ MaxRSChunkKey". *)
Definition fits `{!core.Decls} (n : Z) (p : pb.Partition) : Prop :=
  pb.GetNextRsChunkKey p + n ≤ core.MaxRSChunkKey.

(** The partition id with the RS tag in its two high bits. *)
Definition rs_tagged (id : core.PartitionID) : core.PartitionID :=
  Z.lor (core.RSPartition * 2 ^ 30) id.

(** The commands [Apply] serves from the read-only transaction. *)
Definition reads_only (cmd : Command) : bool :=
  match cmd with
  | Checksum _ | VerifyChecksum _ => true
  | _ => false
  end.

Definition is_SetReadOnlyMode (cmd : Command) : bool :=
  match cmd with
  | SetReadOnlyMode _ => true
  | _ => false
  end.

(** The handler with the read-only flag of its store at [b]. *)
Definition with_read_only (b : bool) (h : StateHandler) : StateHandler :=
  set_state h (state.set_read_only (h_state h) b).

Definition on_state {S S' A} (f : S → S') (o : Outcome S A) : Outcome S' A :=
  match o with
  | Done s a => Done (f s) a
  | Panic s => Panic (f s)
  | Fatal => Fatal
  end.

(** The index a transaction was opened at is the one it ends with, however
    the call ends. *)
Definition keeps_index {A} (txn : state.Txn) (o : Outcome state.Txn A) : Prop :=
  match o with
  | Done txn' _ | Panic txn' => state.txn_index txn' = state.txn_index txn
  | Fatal => True
  end.

(** ** Sample data for the examples that run the handlers *)
Module sample.

Definition decls : core.Decls :=
  {| core.MaxRSChunkKey := 2 ^ 48 - 1;
     core.IsValid := λ c, bool_decide (c ≠ 0) |}.

(** A state layer whose operations leave the store alone; the checksum of a
    bucket is its number of records. *)
Definition layer : state.Layer :=
  {| state.delete_blob := λ _ _ s, (s, core.NoError);
     state.undelete_blob := λ _ s, (s, core.NoError);
     state.finish_delete_blobs := λ _ s, (s, core.NoError);
     state.set_blob_metadata := λ _ _ s, (s, core.NoError);
     state.batch_update_times := λ _ s, s;
     state.put_rs_chunk := λ _ _ _ _ s, (s, core.NoError);
     state.update_rs_hosts := λ _ _ s, (s, core.NoError);
     state.update_storage_class := λ _ _ s, (s, core.NoError);
     state.create_tsid_cache := λ s, (s, core.NoError);
     state.checksum_blobs := λ m start _, (Z.of_nat (size m), start) |}.

(** A decoder that reads every payload as [cmd]. *)
Definition decoder (cmd : Command) : Decoder := λ _, cmd.

Definition blob (deleted : option Z) (tracts : list pb.Tract) : pb.Blob :=
  {| pb.Repl := Some 3; pb.Hint := Some 0; pb.Mtime := Some 100;
     pb.Atime := Some 100; pb.Expires := None; pb.Deleted := deleted;
     pb.Metadata := []; pb.Storage := None; pb.Tracts := tracts |}.

Definition tract0 : pb.Tract := {| pb.Hosts := [4; 5; 6]; pb.Version := 1 |}.

Definition partition (id next rs : Z) : pb.Partition :=
  {| pb.Id := Some id; pb.NextBlobKey := Some next;
     pb.NextRsChunkKey := Some rs |}.

(** Partition 1 is full, partition 3 is not; blob (1,1) has one tract,
    blob (1,2) has none, blob (1,3) is soft-deleted. *)
Definition store : state.State :=
  {| state.applied_index := 7;
     state.curator_id := 2;
     state.read_only := false;
     state.tsids := None;
     state.partitions :=
       <[3 := partition 3 1 0]> (<[1 := partition 1 (2 ^ 32 - 1) 10]> ∅);
     state.blobs :=
       <[(1, 3) := blob (Some 50) [tract0]]>
         (<[(1, 2) := blob None []]> (<[(1, 1) := blob None [tract0]]> ∅));
     state.rschunks := ∅ |}.

Definition txn : state.Txn := state.WriteTxn store 8.

Definition handler : StateHandler :=
  {| h_state := store; h_checksum := 0; h_checksumIndex := 0 |}.

Definition entry (index : Z) : raft.Entry :=
  {| raft.Index := index; raft.Cmd := [] |}.

(** [Apply] of command [cmd] at index [i]. *)
Definition run (cmd : Command) (h : StateHandler) (i : Z)
    : Outcome StateHandler Result :=
  @Apply decls layer (decoder cmd) h (entry i).

(** The handler a call leaves behind and the value it returns. *)
Definition after (o : Outcome StateHandler Result) : option StateHandler :=
  match o with
  | Done h _ | Panic h => Some h
  | Fatal => None
  end.

Definition value (o : Outcome StateHandler Result) : option Result :=
  match o with
  | Done _ r => Some r
  | _ => None
  end.

(** The next entry, applied to what a returned call has left. *)
Definition next (o : Outcome StateHandler Result) (cmd : Command) (i : Z)
    : Outcome StateHandler Result :=
  match o with
  | Done h _ => run cmd h i
  | _ => o
  end.

Definition create : Command :=
  CreateBlob {| CreateBlobCommand.Repl := 3; CreateBlobCommand.Hint := 0;
                CreateBlobCommand.InitialTime := 100;
                CreateBlobCommand.Expires := 0 |}.

Definition set_mode (b : bool) : Command :=
  SetReadOnlyMode {| SetReadOnlyModeCommand.ReadOnly := b |}.

(** A handler on an empty store. *)
Definition fresh : StateHandler :=
  {| h_state :=
       {| state.applied_index := 0; state.curator_id := 0;
          state.read_only := false; state.tsids := None;
          state.partitions := ∅; state.blobs := ∅; state.rschunks := ∅ |};
     h_checksum := 0; h_checksumIndex := 0 |}.

Definition add_partition (id : Z) : Command :=
  AddPartition {| AddPartitionCommand.ID := id |}.

Definition extend (first : Z) : Command :=
  ExtendBlob {| ExtendBlobCommand.ID := (1, 1);
                ExtendBlobCommand.FirstTractKey := first;
                ExtendBlobCommand.Hosts := [[4; 5; 6]] |}.

Definition change (version : Z) : Command :=
  ChangeTract
    {| ChangeTractCommand.ID := {| core.Blob := (1, 1); core.Index := 0 |};
       ChangeTractCommand.NewHosts := [7; 8; 9];
       ChangeTractCommand.NewVersion := version |}.

(** The tracts of blob (1,1) in what a call has left. *)
Definition tracts_of (o : Outcome StateHandler Result) : option (list pb.Tract) :=
  h ← after o; pb.Tracts <$> state.GetBlob (1, 1) (LocalReadOnlyTxn h).

End sample.


(** ** Vocabulary of the further properties *)

(** The record [addPartition] writes for a partition that is new. *)
Definition new_partition (id : core.PartitionID) : pb.Partition :=
  {| pb.Id := Some id; pb.NextBlobKey := Some 1; pb.NextRsChunkKey := None |}.

(** The blob CreateBlob writes. *)
Definition created_blob (cmd : CreateBlobCommand.t) : pb.Blob :=
  {| pb.Repl := Some (uint32 (CreateBlobCommand.Repl cmd));
     pb.Hint := Some (CreateBlobCommand.Hint cmd);
     pb.Mtime := Some (CreateBlobCommand.InitialTime cmd);
     pb.Atime := Some (CreateBlobCommand.InitialTime cmd);
     pb.Expires :=
       if bool_decide (CreateBlobCommand.Expires cmd ≠ 0)
       then Some (CreateBlobCommand.Expires cmd) else None;
     pb.Deleted := None; pb.Metadata := []; pb.Storage := None;
     pb.Tracts := [] |}.

(** Two transactions that differ at most in the partition bucket. *)
Definition same_but_partitions (t1 t2 : state.Txn) : Prop :=
  t2 = state.on_db
         (λ s, state.set_partitions s (state.partitions (state.db t2))) t1.

(** Two transactions that differ at most in the blob bucket and in the
    known-tractserver cache, which PutBlob maintains. *)
Definition same_but_blobs (t1 t2 : state.Txn) : Prop :=
  t2 = state.on_db
         (λ s, state.set_tsids
                 (state.set_blobs s (state.blobs (state.db t2)))
                 (state.tsids (state.db t2))) t1.

(** Every tract of every stored blob has as many hosts as the blob's
    replication factor. *)
Definition hosts_match_repl (s : state.State) : Prop :=
  ∀ id b, state.blobs s !! id = Some b →
          Forall (λ t, len (pb.Hosts t) = pb.GetRepl b) (pb.Tracts b).

(** Every stored blob, soft-deleted or not, has a key below the
    next_blob_key of its partition. *)
Definition blob_keys_allocated (s : state.State) : Prop :=
  ∀ p k b, state.blobs s !! (p, k) = Some b →
           ∃ part next, state.partitions s !! p = Some part
                        ∧ pb.NextBlobKey part = Some next ∧ k < next.

(** The commands whose handlers are written out in this file, the others
    handing their arguments to package state. *)
Definition handled_here (cmd : Command) : bool :=
  match cmd with
  | SetRegistration _ | AddPartition _ | SyncPartitions _ | CreateBlob _
  | ExtendBlob _ | ChangeTract _ | AllocateRSChunkIDs _ => true
  | _ => false
  end.

(** What a call leaves behind, when it returns or panics, satisfies [P]. *)
Definition leaves {A} (o : Outcome state.Txn A) (P : state.State → Prop) : Prop :=
  match o with
  | Done txn _ | Panic txn => P (state.db txn)
  | Fatal => True
  end.

(** The partition ids that the command carries are 32-bit values, as their
    Go type [core.PartitionID] has them. *)
Definition ids_in_range (cmd : Command) : Prop :=
  match cmd with
  | AddPartition c => is_uint32 (AddPartitionCommand.ID c)
  | SyncPartitions c => Forall is_uint32 (SyncPartitionsCommand.Partitions c)
  | _ => True
  end.

(** No partition is removed and no next_blob_key is lowered or unset. *)
Definition blob_counters_grow (s s' : state.State) : Prop :=
  ∀ k p next,
    state.partitions s !! k = Some p → pb.NextBlobKey p = Some next →
    ∃ p' next', state.partitions s' !! k = Some p'
                ∧ pb.NextBlobKey p' = Some next' ∧ next ≤ next'.

(** No partition is removed and neither of its counters is lowered. *)
Definition counters_grow (s s' : state.State) : Prop :=
  ∀ k p, state.partitions s !! k = Some p →
         ∃ p', state.partitions s' !! k = Some p'
               ∧ pb.GetNextBlobKey p ≤ pb.GetNextBlobKey p'
               ∧ pb.GetNextRsChunkKey p ≤ pb.GetNextRsChunkKey p'.

(** For AllocateRSChunkIDs: adding its N to a stored counter stays within 64
    bits. *)
Definition sums_in_range (cmd : Command) (s : state.State) : Prop :=
  match cmd with
  | AllocateRSChunkIDs c => rs_keys_in_range (AllocateRSChunkIDsCommand.N c) s
  | _ => True
  end.

(** ** More sample data *)

(** A decoder that reads the empty payload as a Checksum of ten blobs from
    the start and any other payload as a VerifyChecksum of index 8 and
    checksum [cksum]. *)
Definition sample_checks (cksum : Z) : Decoder :=
  λ payload,
    match payload with
    | [] => Checksum {| ChecksumCommand.Start := (0, 0); ChecksumCommand.N := 10 |}
    | _ => VerifyChecksum {| VerifyChecksumCommand.Index := 8;
                             VerifyChecksumCommand.Checksum := cksum |}
    end.

(** An entry with a payload of one byte. *)
Definition sample_verify (index : Z) : raft.Entry :=
  {| raft.Index := index; raft.Cmd := [Byte.x01] |}.

(** A transaction on the sample store with partition 1, which is full, as its
    only partition. *)
Definition sample_full : state.Txn :=
  state.WriteTxn
    (state.set_partitions sample.store
       (<[1 := sample.partition 1 (2 ^ 32 - 1) 10]> ∅)) 8.

(** A ChangeTract of blob (1,1) at tract [i]. *)
Definition sample_change_at (i : Z) : Command :=
  ChangeTract
    {| ChangeTractCommand.ID := {| core.Blob := (1, 1); core.Index := i |};
       ChangeTractCommand.NewHosts := [7; 8; 9];
       ChangeTractCommand.NewVersion := 2 |}.
(** * Properties *)

(** ** Slices *)

Lemma index_Some {A} (s : list A) (i : Z) (x : A) :
  index s i = Some x ↔ 0 ≤ i ∧ s !! Z.to_nat i = Some x.
Proof.
  unfold index. case_bool_decide.
  - split; [discriminate|]. intros [? _]. lia.
  - split; [intros ?; split; [lia|done]|by intros [_ ?]].
Qed.

Lemma index_in_range {A} (s : list A) (i : Z) (x : A) :
  index s i = Some x → 0 ≤ i < len s.
Proof.
  intros [? Hl%lookup_lt_Some]%index_Some. unfold len. lia.
Qed.

Lemma index_None {A} (s : list A) (i : Z) :
  index s i = None ↔ i < 0 ∨ len s ≤ i.
Proof.
  unfold index, len. case_bool_decide.
  - split; [auto|done].
  - rewrite lookup_ge_None. lia.
Qed.

Lemma len_app {A} (s1 s2 : list A) : len (s1 ++ s2) = len s1 + len s2.
Proof. unfold len. rewrite length_app. lia. Qed.

Lemma len_zero {A} (s : list A) : len s = 0 ↔ s = [].
Proof.
  unfold len. split.
  - destruct s; [done|simpl; lia].
  - by intros ->.
Qed.

(** ** The blob bucket *)

Lemma GetBlob_Some id txn b :
  state.GetBlob id txn = Some b ↔
  state.blobs (state.db txn) !! id = Some b ∧ pb.Deleted b = None.
Proof.
  unfold state.GetBlob.
  destruct (state.blobs (state.db txn) !! id) as [b'|];
    [|split; [done|by intros [? _]]].
  destruct (pb.Deleted b') eqn:Hd; split.
  - done.
  - intros [[= ->] ?]. congruence.
  - intros [= ->]. done.
  - intros [[= ->] _]. done.
Qed.

Lemma GetBlob_PutBlob id b txn :
  pb.Deleted b = None → state.GetBlob id (state.PutBlob id b txn) = Some b.
Proof.
  intros Hd. apply GetBlob_Some. split; [|done].
  simpl. apply lookup_insert_eq.
Qed.

(** ** ExtendBlob *)

Lemma append_tracts (tracts : list pb.Tract) (hs : list (list core.TractserverID)) :
  foldl (λ tracts hosts, tracts ++ [ {| pb.Hosts := hosts; pb.Version := 1 |} ])
        tracts hs
  = tracts ++ (new_tract <$> hs).
Proof.
  revert tracts. induction hs as [|h hs IH]; intros tracts; simpl.
  - by rewrite app_nil_r.
  - rewrite IH, <- app_assoc. done.
Qed.

Lemma ExtendBlob_no_blob cmd txn :
  state.GetBlob (ExtendBlobCommand.ID cmd) txn = None →
  ExtendBlobCommand.apply cmd txn = ExtendBlobCommand.fail txn core.ErrNoSuchBlob.
Proof. intros H. unfold ExtendBlobCommand.apply. by rewrite H. Qed.

Lemma ExtendBlob_conflict cmd txn blob :
  state.GetBlob (ExtendBlobCommand.ID cmd) txn = Some blob →
  ExtendBlobCommand.FirstTractKey cmd ≠ len (pb.Tracts blob) →
  ExtendBlobCommand.apply cmd txn = ExtendBlobCommand.fail txn core.ErrExtendConflict.
Proof.
  intros H Hk. unfold ExtendBlobCommand.apply. rewrite H.
  by rewrite bool_decide_eq_true_2.
Qed.

Lemma ExtendBlob_bad_hosts cmd txn blob :
  state.GetBlob (ExtendBlobCommand.ID cmd) txn = Some blob →
  ExtendBlobCommand.FirstTractKey cmd = len (pb.Tracts blob) →
  Exists (λ h, len h ≠ pb.GetRepl blob) (ExtendBlobCommand.Hosts cmd) →
  ExtendBlobCommand.apply cmd txn = ExtendBlobCommand.fail txn core.ErrInvalidArgument.
Proof.
  intros H Hk Hh. unfold ExtendBlobCommand.apply. rewrite H.
  rewrite bool_decide_eq_false_2 by (intros ?; done).
  by rewrite bool_decide_eq_true_2.
Qed.

Lemma ExtendBlob_accepted cmd txn blob :
  state.GetBlob (ExtendBlobCommand.ID cmd) txn = Some blob →
  ExtendBlobCommand.FirstTractKey cmd = len (pb.Tracts blob) →
  Forall (λ h, len h = pb.GetRepl blob) (ExtendBlobCommand.Hosts cmd) →
  ExtendBlobCommand.apply cmd txn
  = (state.PutBlob (ExtendBlobCommand.ID cmd)
       (extended blob (ExtendBlobCommand.Hosts cmd)) txn,
     {| ExtendBlobResult.Err := core.NoError;
        ExtendBlobResult.NewSize :=
          len (pb.Tracts blob) + len (ExtendBlobCommand.Hosts cmd) |}).
Proof.
  intros H Hk Hh. unfold ExtendBlobCommand.apply. rewrite H.
  rewrite bool_decide_eq_false_2 by (intros ?; done).
  rewrite bool_decide_eq_false_2.
  2:{ rewrite <- Forall_Exists_neg. eapply Forall_impl; [exact Hh|].
      simpl. intros h -> ?. done. }
  rewrite append_tracts. unfold extended, len. simpl.
  rewrite length_app, length_fmap, Nat2Z.inj_add. done.
Qed.

(** C5, as the code has it.  ExtendBlob answers NoSuchBlob for a blob that
    GetBlob does not find; otherwise ExtendConflict, with the transaction
    untouched, when firstTractKey is not the tract count; otherwise
    InvalidArgument, with the transaction untouched, when some host vector's
    length is not the replication factor; otherwise it appends one tract of
    version 1 per host vector, in order, and returns the new tract count.
    After an accepted extend that appended at least one tract, the same
    command is rejected with ExtendConflict and nothing more is appended. *)
Theorem ExtendBlob_cases (cmd : ExtendBlobCommand.t) (txn : state.Txn) :
  (state.GetBlob (ExtendBlobCommand.ID cmd) txn = None →
   ExtendBlobCommand.apply cmd txn = ExtendBlobCommand.fail txn core.ErrNoSuchBlob)
  ∧ ∀ blob,
      state.GetBlob (ExtendBlobCommand.ID cmd) txn = Some blob →
      (ExtendBlobCommand.FirstTractKey cmd ≠ len (pb.Tracts blob) →
       ExtendBlobCommand.apply cmd txn
       = ExtendBlobCommand.fail txn core.ErrExtendConflict)
      ∧ (ExtendBlobCommand.FirstTractKey cmd = len (pb.Tracts blob) →
         Exists (λ h, len h ≠ pb.GetRepl blob) (ExtendBlobCommand.Hosts cmd) →
         ExtendBlobCommand.apply cmd txn
         = ExtendBlobCommand.fail txn core.ErrInvalidArgument)
      ∧ (ExtendBlobCommand.FirstTractKey cmd = len (pb.Tracts blob) →
         Forall (λ h, len h = pb.GetRepl blob) (ExtendBlobCommand.Hosts cmd) →
         let blob' := extended blob (ExtendBlobCommand.Hosts cmd) in
         let txn' := state.PutBlob (ExtendBlobCommand.ID cmd) blob' txn in
         ExtendBlobCommand.apply cmd txn
         = (txn',
            {| ExtendBlobResult.Err := core.NoError;
               ExtendBlobResult.NewSize :=
                 len (pb.Tracts blob) + len (ExtendBlobCommand.Hosts cmd) |})
         ∧ state.GetBlob (ExtendBlobCommand.ID cmd) txn' = Some blob'
         ∧ (ExtendBlobCommand.Hosts cmd ≠ [] →
            ExtendBlobCommand.apply cmd txn'
            = ExtendBlobCommand.fail txn' core.ErrExtendConflict)).
Proof.
  split; [apply ExtendBlob_no_blob|].
  intros blob Hb. split_and!.
  - by apply ExtendBlob_conflict.
  - by apply ExtendBlob_bad_hosts.
  - intros Hk Hh blob' txn'.
    assert (Hb' : state.GetBlob (ExtendBlobCommand.ID cmd) txn' = Some blob').
    { apply GetBlob_PutBlob. apply GetBlob_Some in Hb as [_ ?]. done. }
    split_and!; [by apply ExtendBlob_accepted|done|].
    intros Hne. apply (ExtendBlob_conflict _ _ _ Hb').
    unfold blob', extended. simpl. rewrite Hk, len_app.
    assert (len (new_tract <$> ExtendBlobCommand.Hosts cmd) ≠ 0); [|lia].
    rewrite len_zero. by destruct (ExtendBlobCommand.Hosts cmd).
Qed.

Lemma ExtendBlob_cases_witness :
  let cmd := {| ExtendBlobCommand.ID := (1, 1);
                ExtendBlobCommand.FirstTractKey := 1;
                ExtendBlobCommand.Hosts := [[7; 8; 9]; [1; 2; 3]] |} in
  let blob' := extended (sample.blob None [sample.tract0]) [[7; 8; 9]; [1; 2; 3]] in
  let txn' := state.PutBlob (1, 1) blob' sample.txn in
  ExtendBlobCommand.apply cmd sample.txn
  = (txn', {| ExtendBlobResult.Err := core.NoError; ExtendBlobResult.NewSize := 3 |})
  ∧ state.GetBlob (1, 1) txn' = Some blob'
  ∧ ExtendBlobCommand.apply cmd txn'
    = ExtendBlobCommand.fail txn' core.ErrExtendConflict.
Proof.
  intros cmd blob' txn'.
  destruct (ExtendBlob_cases cmd sample.txn) as [_ H].
  destruct (H (sample.blob None [sample.tract0])) as (_ & _ & Hok);
    [reflexivity|].
  destruct Hok as (H1 & H2 & H3); [reflexivity|repeat constructor|].
  split_and!; [exact H1|exact H2|apply H3; discriminate].
Defined.

(** C5, counterexample to the claim as stated: an ExtendBlob without host
    vectors is accepted, and so is its duplicate. *)
Lemma ExtendBlob_empty_duplicate_accepted :
  let cmd := {| ExtendBlobCommand.ID := (1, 2);
                ExtendBlobCommand.FirstTractKey := 0;
                ExtendBlobCommand.Hosts := [] |} in
  let first := ExtendBlobCommand.apply cmd sample.txn in
  let second := ExtendBlobCommand.apply cmd first.1 in
  first.2 = {| ExtendBlobResult.Err := core.NoError;
               ExtendBlobResult.NewSize := 0 |}
  ∧ second.2 = {| ExtendBlobResult.Err := core.NoError;
                  ExtendBlobResult.NewSize := 0 |}
  ∧ ExtendBlobResult.Err second.2 ≠ core.ErrExtendConflict.
Proof. vm_compute. split_and!; [reflexivity|reflexivity|discriminate]. Qed.

(** ** Soft-deleted blobs *)

(** C10.  For a blob that is stored with a soft-delete timestamp, ExtendBlob
    and ChangeTract answer NoSuchBlob and leave the transaction untouched. *)
Theorem soft_deleted_blob_not_found (txn : state.Txn) (id : core.BlobID)
    (b : pb.Blob) (when : Z) :
  state.GetBlobAll id txn = Some b →
  pb.Deleted b = Some when →
  (∀ cmd, ExtendBlobCommand.ID cmd = id →
     ExtendBlobCommand.apply cmd txn
     = ExtendBlobCommand.fail txn core.ErrNoSuchBlob)
  ∧ (∀ cmd, core.Blob (ChangeTractCommand.ID cmd) = id →
       ChangeTractCommand.apply cmd txn
       = ChangeTractCommand.fail txn core.ErrNoSuchBlob).
Proof.
  intros Hb Hd.
  assert (Hg : state.GetBlob id txn = None).
  { unfold state.GetBlobAll in Hb. unfold state.GetBlob. by rewrite Hb, Hd. }
  split; intros cmd <-.
  - by apply ExtendBlob_no_blob.
  - unfold ChangeTractCommand.apply. by rewrite Hg.
Qed.

Lemma soft_deleted_blob_not_found_witness :
  ExtendBlobCommand.apply
    {| ExtendBlobCommand.ID := (1, 3); ExtendBlobCommand.FirstTractKey := 1;
       ExtendBlobCommand.Hosts := [[7; 8; 9]] |} sample.txn
  = ExtendBlobCommand.fail sample.txn core.ErrNoSuchBlob
  ∧ ChangeTractCommand.apply
      {| ChangeTractCommand.ID := {| core.Blob := (1, 3); core.Index := 0 |};
         ChangeTractCommand.NewHosts := [7; 8; 9];
         ChangeTractCommand.NewVersion := 2 |} sample.txn
    = ChangeTractCommand.fail sample.txn core.ErrNoSuchBlob.
Proof.
  destruct (soft_deleted_blob_not_found sample.txn (1, 3)
              (sample.blob (Some 50) [sample.tract0]) 50) as [He Hc];
    [reflexivity|reflexivity|].
  split; [apply He|apply Hc]; reflexivity.
Defined.

(** Once the timestamp is cleared the blob is found again. *)
Lemma live_blob_found (txn : state.Txn) (id : core.BlobID) (b : pb.Blob) :
  state.GetBlobAll id txn = Some b →
  pb.Deleted b = None →
  state.GetBlob id txn = Some b.
Proof. intros Hb Hd. by apply GetBlob_Some. Qed.

(** ** ChangeTract *)

(** An index beyond the tract count is answered with NoSuchTract. *)
Lemma ChangeTract_beyond_count cmd txn blob :
  state.GetBlob (core.Blob (ChangeTractCommand.ID cmd)) txn = Some blob →
  core.Index (ChangeTractCommand.ID cmd) > len (pb.Tracts blob) →
  ChangeTractCommand.apply cmd txn
  = ChangeTractCommand.fail txn core.ErrNoSuchTract.
Proof.
  intros Hb Hi. unfold ChangeTractCommand.apply. rewrite Hb.
  by rewrite bool_decide_eq_true_2.
Qed.

(** An index equal to the tract count passes the guard and the slice access
    that follows panics. *)
Lemma ChangeTract_at_count_panics cmd txn blob :
  state.GetBlob (core.Blob (ChangeTractCommand.ID cmd)) txn = Some blob →
  core.Index (ChangeTractCommand.ID cmd) = len (pb.Tracts blob) →
  ChangeTractCommand.apply cmd txn = Panic txn.
Proof.
  intros Hb Hi. unfold ChangeTractCommand.apply. rewrite Hb.
  rewrite bool_decide_eq_false_2 by lia.
  assert (index (pb.Tracts blob) (core.Index (ChangeTractCommand.ID cmd)) = None)
    as ->; [|done].
  apply index_None. lia.
Qed.

(** C1, the code at the failing input: blob (1,1) has one tract, and
    ChangeTract of tract index 1 does not return NoSuchTract but panics on
    the slice access. *)
Theorem ChangeTract_index_one_past_end_panics :
  ChangeTractCommand.apply
    {| ChangeTractCommand.ID := {| core.Blob := (1, 1); core.Index := 1 |};
       ChangeTractCommand.NewHosts := [7; 8; 9];
       ChangeTractCommand.NewVersion := 2 |}
    sample.txn
  = Panic sample.txn.
Proof. reflexivity. Qed.

(** With the blob and the tract found, the two checks that remain decide. *)
Lemma ChangeTract_found cmd txn blob tract :
  state.GetBlob (core.Blob (ChangeTractCommand.ID cmd)) txn = Some blob →
  index (pb.Tracts blob) (core.Index (ChangeTractCommand.ID cmd)) = Some tract →
  ChangeTractCommand.apply cmd txn
  = if bool_decide (len (pb.Hosts tract) ≠ len (ChangeTractCommand.NewHosts cmd))
    then ChangeTractCommand.fail txn core.ErrInvalidArgument
    else if bool_decide (wrap VersionBits (pb.Version tract + 1)
                         ≠ ChangeTractCommand.NewVersion cmd)
    then ChangeTractCommand.fail txn core.ErrConflictingState
    else
      let tract' := changed_tract cmd tract in
      Done (state.PutBlob (core.Blob (ChangeTractCommand.ID cmd))
              (changed_blob cmd blob tract) txn)
           {| ChangeTractResult.Err := core.NoError;
              ChangeTractResult.Info :=
                {| core.Tract := ChangeTractCommand.ID cmd;
                   core.Version := pb.Version tract';
                   core.TSIDs := pb.Hosts tract' |} |}.
Proof.
  intros Hb Hi. unfold ChangeTractCommand.apply. rewrite Hb.
  pose proof (index_in_range _ _ _ Hi).
  rewrite bool_decide_eq_false_2 by lia.
  rewrite Hi. done.
Qed.

Lemma wrap_small bits x : 0 ≤ x < 2 ^ bits → wrap bits x = x.
Proof. intros. unfold wrap. by apply Z.mod_small. Qed.

Lemma wrap_range bits x : 0 ≤ bits → 0 ≤ wrap bits x < 2 ^ bits.
Proof. intros. unfold wrap. apply Z.mod_pos_bound. by apply Z.pow_pos_nonneg. Qed.

(** C4.  ChangeTract on a blob that GetBlob finds, for a tract that exists
    and a host vector of the tract's length (the version being below the
    largest 32-bit value): it succeeds iff newVersion is the tract's version
    plus 1, and answers ConflictingState with the transaction untouched
    otherwise; on success the stored tract has the new hosts and the version
    plus 1; and no request for the same newVersion succeeds after that. *)
Theorem ChangeTract_exactly_plus_one (cmd : ChangeTractCommand.t)
    (txn : state.Txn) (blob : pb.Blob) (tract : pb.Tract) :
  let id := core.Blob (ChangeTractCommand.ID cmd) in
  let i := core.Index (ChangeTractCommand.ID cmd) in
  state.GetBlob id txn = Some blob →
  index (pb.Tracts blob) i = Some tract →
  len (pb.Hosts tract) = len (ChangeTractCommand.NewHosts cmd) →
  0 ≤ pb.Version tract < 2 ^ VersionBits - 1 →
  let tract' := {| pb.Hosts := ChangeTractCommand.NewHosts cmd;
                   pb.Version := pb.Version tract + 1 |} in
  let blob' := pb.set_Tracts blob (<[Z.to_nat i := tract']> (pb.Tracts blob)) in
  let txn' := state.PutBlob id blob' txn in
  (ChangeTractCommand.NewVersion cmd ≠ pb.Version tract + 1 →
   ChangeTractCommand.apply cmd txn
   = ChangeTractCommand.fail txn core.ErrConflictingState)
  ∧ (ChangeTractCommand.NewVersion cmd = pb.Version tract + 1 →
     ChangeTractCommand.apply cmd txn
     = Done txn'
         {| ChangeTractResult.Err := core.NoError;
            ChangeTractResult.Info :=
              {| core.Tract := ChangeTractCommand.ID cmd;
                 core.Version := pb.Version tract + 1;
                 core.TSIDs := ChangeTractCommand.NewHosts cmd |} |}
     ∧ state.GetBlob id txn' = Some blob'
     ∧ index (pb.Tracts blob') i = Some tract'
     ∧ ∀ again,
         ChangeTractCommand.ID again = ChangeTractCommand.ID cmd →
         ChangeTractCommand.NewVersion again = ChangeTractCommand.NewVersion cmd →
         ∃ e, e ≠ core.NoError
              ∧ ChangeTractCommand.apply again txn'
                = ChangeTractCommand.fail txn' e).
Proof.
  intros id i Hb Hi Hlen Hv tract' blob' txn'.
  pose proof (ChangeTract_found cmd txn blob tract Hb Hi) as Happ.
  rewrite bool_decide_eq_false_2 in Happ by (intros ?; done).
  rewrite wrap_small in Happ by (unfold VersionBits in *; lia).
  split.
  - intros Hne. rewrite Happ. by rewrite bool_decide_eq_true_2.
  - intros Heq. rewrite bool_decide_eq_false_2 in Happ by (intros ?; done).
    assert (Hb' : state.GetBlob id txn' = Some blob').
    { apply GetBlob_PutBlob. apply GetBlob_Some in Hb as [_ ?]. done. }
    assert (Hi' : index (pb.Tracts blob') i = Some tract').
    { apply index_Some in Hi as [? Hl]. apply index_Some. split; [done|].
      simpl. apply list_lookup_insert_eq. by eapply lookup_lt_Some. }
    split_and!; [| done | done |].
    + rewrite Happ. unfold txn', blob', tract', id, i, changed_blob, changed_tract.
      cbn zeta. rewrite !wrap_small by (unfold VersionBits in *; lia). done.
    + intros again Hid Hver.
      pose proof (ChangeTract_found again txn' blob' tract') as Hagain.
      rewrite Hid in Hagain. specialize (Hagain Hb' Hi').
      rewrite Hagain. case_bool_decide; [by exists core.ErrInvalidArgument|].
      rewrite bool_decide_eq_true_2; [by exists core.ErrConflictingState|].
      simpl. rewrite Hver, Heq.
      pose proof (wrap_range VersionBits (pb.Version tract + 1 + 1)) as Hr.
      unfold wrap in *. unfold VersionBits in *.
      destruct (decide (pb.Version tract + 1 + 1 < 2 ^ 32)).
      * rewrite Z.mod_small by lia. lia.
      * replace (pb.Version tract + 1 + 1) with (2 ^ 32) by lia.
        rewrite Z.mod_same by lia. lia.
Qed.

Lemma ChangeTract_exactly_plus_one_witness :
  let cmd := {| ChangeTractCommand.ID := {| core.Blob := (1, 1); core.Index := 0 |};
                ChangeTractCommand.NewHosts := [7; 8; 9];
                ChangeTractCommand.NewVersion := 2 |} in
  let tract' := {| pb.Hosts := [7; 8; 9]; pb.Version := 2 |} in
  let txn' := state.PutBlob (1, 1) (sample.blob None [tract']) sample.txn in
  ChangeTractCommand.apply cmd sample.txn
  = Done txn'
      {| ChangeTractResult.Err := core.NoError;
         ChangeTractResult.Info :=
           {| core.Tract := ChangeTractCommand.ID cmd;
              core.Version := 2; core.TSIDs := [7; 8; 9] |} |}
  ∧ state.GetBlob (1, 1) txn' = Some (sample.blob None [tract']).
Proof.
  intros cmd tract' txn'.
  destruct (ChangeTract_exactly_plus_one cmd sample.txn
              (sample.blob None [sample.tract0]) sample.tract0) as [_ H];
    [reflexivity|reflexivity|reflexivity|unfold VersionBits; simpl; lia|].
  destruct H as (H1 & H2 & _); [reflexivity|].
  split; [exact H1|exact H2].
Defined.

(** ** The partition bucket *)

Lemma StronglySorted_lookup {A} (R : relation A) (l : list A) i j x y :
  StronglySorted R l → l !! i = Some x → l !! j = Some y → (i < j)%nat → R x y.
Proof.
  intros Hs. revert i j. induction Hs as [|a l Hs IH Ha]; intros i j Hi Hj Hlt.
  - by rewrite lookup_nil in Hi.
  - destruct j as [|j]; [lia|]. destruct i as [|i]; simpl in *.
    + injection Hi as ->. rewrite Forall_forall in Ha.
      apply Ha. by eapply list_elem_of_lookup_2.
    + apply (IH i j); [done..|lia].
Qed.

Global Instance by_key_trans : Transitive state.by_key.
Proof. intros x y z. unfold state.by_key. lia. Qed.

Global Instance by_key_total : Total state.by_key.
Proof. intros x y. unfold state.by_key. lia. Qed.

Section Partitions.
Context (P : pb.Partition → Prop) `{!∀ p, Decision (P p)}.

(** The loop over GetPartitions stops at the record with the least key
    among those that satisfy the test. *)
Lemma GetPartitions_find txn i p :
  list_find P (state.GetPartitions txn) = Some (i, p) →
  ∃ k, state.partitions (state.db txn) !! k = Some p ∧ P p
       ∧ ∀ k' p', state.partitions (state.db txn) !! k' = Some p' → P p' → k ≤ k'.
Proof.
  unfold state.GetPartitions. rewrite list_find_fmap.
  set (l := merge_sort state.by_key (map_to_list (state.partitions (state.db txn)))).
  intros Hf. apply fmap_Some in Hf as ([i' [k q]] & Hf & Heq).
  simpl in Heq. injection Heq as -> ->. rename i' into i, q into p.
  apply list_find_Some in Hf as (Hi & HP & Hmin). simpl in HP.
  assert (Hin : ∀ k' p', state.partitions (state.db txn) !! k' = Some p' ↔ (k', p') ∈ l).
  { intros k' p'. unfold l. rewrite merge_sort_Permutation.
    by rewrite elem_of_map_to_list. }
  exists k. split_and!; [by eapply Hin, list_elem_of_lookup_2|done|].
  intros k' p' Hl HP'. apply Hin, list_elem_of_lookup in Hl as [j Hj].
  destruct (decide (j < i)%nat) as [Hlt|Hge].
  - by destruct (Hmin j (k', p') Hj Hlt).
  - destruct (decide (j = i)) as [->|Hne].
    + rewrite Hi in Hj. injection Hj as -> _. lia.
    + assert (state.by_key (k, p) (k', p')) as Hle; [|exact Hle].
      eapply (StronglySorted_lookup state.by_key l i j); [|done|done|lia].
      apply StronglySorted_merge_sort; apply _.
Qed.

Lemma GetPartitions_find_None txn :
  list_find P (state.GetPartitions txn) = None ↔
  ∀ k p, state.partitions (state.db txn) !! k = Some p → ¬ P p.
Proof.
  rewrite list_find_None, Forall_forall. unfold state.GetPartitions. split.
  - intros Hall k p Hl. apply Hall. apply list_elem_of_fmap. exists (k, p).
    split; [done|]. rewrite merge_sort_Permutation. by apply elem_of_map_to_list.
  - intros Hall p Hp. apply list_elem_of_fmap in Hp as ([k q] & -> & Hin).
    rewrite merge_sort_Permutation in Hin. apply elem_of_map_to_list in Hin.
    by apply (Hall k).
Qed.

End Partitions.

(** *** The shape of the partition bucket is kept by the handlers that
    write to it *)

Lemma PutPartition_ok p k txn :
  pb.Id p = Some k →
  (∃ next, pb.NextBlobKey p = Some next ∧ is_uint32 next) →
  partitions_ok (state.db txn) →
  partitions_ok (state.db (state.PutPartition p txn)).
Proof.
  intros Hk Hn [Hid Hset].
  assert (pb.GetId p = k) as Hg by (unfold pb.GetId; by rewrite Hk).
  split; intros k' p'; simpl; rewrite Hg;
    intros [[<- <-]|[_ Hl]]%lookup_insert_Some; eauto.
Qed.

Lemma addPartition_ok id txn :
  partitions_ok (state.db txn) →
  partitions_ok (state.db (addPartition id txn).1).
Proof.
  intros Hok. unfold addPartition.
  destruct (state.GetPartition id txn); [done|]. simpl fst.
  apply (PutPartition_ok _ (uint32 id)); [done| |done].
  exists 1. split; [done|]. unfold is_uint32. lia.
Qed.

Lemma empty_partitions_ok s : state.partitions s = ∅ → partitions_ok s.
Proof.
  intros He. split; intros k p; rewrite He, lookup_empty; discriminate.
Qed.

(** ** CreateBlob *)

Lemma non_full_iff s k p :
  blob_keys_set s → state.partitions s !! k = Some p →
  non_full p ↔ pb.GetNextBlobKey p ≠ core.MaxBlobKey.
Proof.
  intros Hset Hl. destruct (Hset k p Hl) as (next & Hn & Hr).
  unfold non_full, pb.GetNextBlobKey, core.MaxBlobKey, is_uint32 in *.
  rewrite Hn. simpl. lia.
Qed.

(** C6.  On a store whose partition records carry their id and a 32-bit
    next_blob_key: if some partition is non-full, CreateBlob picks the
    non-full partition of the lowest id, creates the blob under the key that
    partition's next_blob_key held, stores the partition with the key
    incremented by 1, gives the blob Mtime = Atime = initialTime and the
    expiry only when it is nonzero, and returns the new BlobID with NoError;
    if every partition is full it returns ErrGenBlobID and leaves the
    transaction untouched. *)
Theorem CreateBlob_lowest_non_full (cmd : CreateBlobCommand.t) (txn : state.Txn) :
  keyed_by_id (state.db txn) →
  blob_keys_set (state.db txn) →
  ((∃ k p, state.partitions (state.db txn) !! k = Some p ∧ non_full p) →
   ∃ k p next blob,
     state.partitions (state.db txn) !! k = Some p
     ∧ pb.NextBlobKey p = Some next
     ∧ non_full p
     ∧ (∀ k' p', state.partitions (state.db txn) !! k' = Some p' →
                 non_full p' → k ≤ k')
     ∧ pb.Mtime blob = Some (CreateBlobCommand.InitialTime cmd)
     ∧ pb.Atime blob = Some (CreateBlobCommand.InitialTime cmd)
     ∧ (CreateBlobCommand.Expires cmd = 0 → pb.Expires blob = None)
     ∧ (CreateBlobCommand.Expires cmd ≠ 0 →
        pb.Expires blob = Some (CreateBlobCommand.Expires cmd))
     ∧ pb.Tracts blob = []
     ∧ let p' := {| pb.Id := Some k; pb.NextBlobKey := Some (next + 1);
                    pb.NextRsChunkKey := pb.NextRsChunkKey p |} in
       let txn' := state.PutBlob (k, next) blob (state.PutPartition p' txn) in
       CreateBlobCommand.apply cmd txn
       = Done txn' {| CreateBlobResult.ID := (k, next);
                      CreateBlobResult.Err := core.NoError |}
       ∧ state.GetPartition k txn' = Some p'
       ∧ (∀ k', k' ≠ k → state.GetPartition k' txn' = state.GetPartition k' txn)
       ∧ state.GetBlob (k, next) txn' = Some blob)
  ∧ ((∀ k p, state.partitions (state.db txn) !! k = Some p → ¬ non_full p) →
     CreateBlobCommand.apply cmd txn
     = Done txn {| CreateBlobResult.ID := zeroBlobID;
                   CreateBlobResult.Err := core.ErrGenBlobID |}).
Proof.
  intros Hid Hset. unfold CreateBlobCommand.apply.
  destruct (list_find _ (state.GetPartitions txn)) as [[i p]|] eqn:Hf.
  - apply GetPartitions_find in Hf as (k & Hl & HP & Hmin).
    destruct (Hset k p Hl) as (next & Hn & Hr).
    pose proof (Hid k p Hl) as Hk.
    assert (Hnf : non_full p) by (by eapply non_full_iff).
    split; [|intros Hfull; by destruct (Hfull k p Hl)].
    intros _. rewrite Hn.
    assert (Hnext : uint32 (next + 1) = next + 1).
    { apply wrap_small. unfold non_full, pb.GetNextBlobKey, core.MaxBlobKey in Hnf.
      rewrite Hn in Hnf. simpl in Hnf. unfold is_uint32 in Hr. lia. }
    exists k, p, next,
      {| pb.Repl := Some (uint32 (CreateBlobCommand.Repl cmd));
         pb.Hint := Some (CreateBlobCommand.Hint cmd);
         pb.Mtime := Some (CreateBlobCommand.InitialTime cmd);
         pb.Atime := Some (CreateBlobCommand.InitialTime cmd);
         pb.Expires :=
           if bool_decide (CreateBlobCommand.Expires cmd ≠ 0)
           then Some (CreateBlobCommand.Expires cmd) else None;
         pb.Deleted := None; pb.Metadata := []; pb.Storage := None;
         pb.Tracts := [] |}.
    simpl. split_and!; [done|done|done| |done|done| | |done| | | |].
    + intros k' p' Hl' Hnf'. apply (Hmin k' p' Hl').
      by eapply non_full_iff.
    + intros He. by rewrite bool_decide_eq_false_2 by (intros ?; done).
    + intros He. by rewrite bool_decide_eq_true_2.
    + unfold pb.GetId. simpl. rewrite Hk, Hnext. done.
    + unfold state.GetPartition, pb.GetId. simpl. apply lookup_insert_eq.
    + intros k' Hne. unfold state.GetPartition, pb.GetId. simpl.
      by apply lookup_insert_ne.
    + by apply GetBlob_PutBlob.
  - rewrite GetPartitions_find_None in Hf. split; [|done].
    intros (k & p & Hl & Hnf). destruct (Hf k p Hl).
    by eapply non_full_iff.
Qed.

(** One goal per record of the partition bucket of the sample store. *)
Ltac each_sample_partition :=
  let H := fresh in
  intros ? ?; simpl;
  intros [[<- <-]|[_ [[<- <-]|[_ H]]%lookup_insert_Some]]%lookup_insert_Some;
  [| |by rewrite lookup_empty in H].

Lemma sample_keyed_by_id : keyed_by_id sample.store.
Proof. each_sample_partition; done. Qed.

Lemma sample_blob_keys_set : blob_keys_set sample.store.
Proof.
  each_sample_partition; eexists; (split; [reflexivity|unfold is_uint32; lia]).
Qed.

Lemma CreateBlob_lowest_non_full_witness :
  ∃ k next txn',
    CreateBlobCommand.apply
      {| CreateBlobCommand.Repl := 3; CreateBlobCommand.Hint := 0;
         CreateBlobCommand.InitialTime := 100; CreateBlobCommand.Expires := 0 |}
      sample.txn
    = Done txn' {| CreateBlobResult.ID := (k, next);
                   CreateBlobResult.Err := core.NoError |}.
Proof.
  destruct (CreateBlob_lowest_non_full
              {| CreateBlobCommand.Repl := 3; CreateBlobCommand.Hint := 0;
                 CreateBlobCommand.InitialTime := 100;
                 CreateBlobCommand.Expires := 0 |}
              sample.txn sample_keyed_by_id sample_blob_keys_set) as [H _].
  destruct H as (k & p & next & blob & H).
  - exists 3, (sample.partition 3 1 0). split; [reflexivity|].
    reflexivity.
  - exists k, next. eexists. apply H.
Defined.

Lemma CreateBlob_ok cmd txn :
  partitions_ok (state.db txn) →
  match CreateBlobCommand.apply cmd txn with
  | Done txn' _ | Panic txn' => partitions_ok (state.db txn')
  | Fatal => True
  end.
Proof.
  intros Hok. unfold CreateBlobCommand.apply.
  destruct (list_find _ (state.GetPartitions txn)) as [[i p]|] eqn:Hf; [|done].
  apply GetPartitions_find in Hf as (k & Hl & HP & _).
  destruct Hok as [Hid Hset].
  destruct (Hset k p Hl) as (next & Hn & Hr). rewrite Hn.
  assert (partitions_ok
            (state.db (state.PutPartition
               {| pb.Id := pb.Id p; pb.NextBlobKey := Some (uint32 (next + 1));
                  pb.NextRsChunkKey := pb.NextRsChunkKey p |} txn))) as [? ?].
  { apply (PutPartition_ok _ k); [by apply (Hid k p)| |done].
    eexists. split; [done|]. apply wrap_range. lia. }
  done.
Qed.

(** The scenario of the spec: with partition 1 full, the blob goes to
    partition 3. *)
Example CreateBlob_rollover :
  ∃ txn',
    CreateBlobCommand.apply
      {| CreateBlobCommand.Repl := 3; CreateBlobCommand.Hint := 0;
         CreateBlobCommand.InitialTime := 100; CreateBlobCommand.Expires := 0 |}
      sample.txn
    = Done txn' {| CreateBlobResult.ID := (3, 1);
                   CreateBlobResult.Err := core.NoError |}.
Proof. eexists. vm_compute. reflexivity. Qed.

(** ** AllocateRSChunkIDs *)

Section AllocateRSChunkIDs.
Context `{!core.Decls}.

Lemma fits_iff n s k p :
  rs_keys_in_range n s → state.partitions s !! k = Some p →
  fits n p ↔ uint64 (pb.GetNextRsChunkKey p + uint64 n) ≤ core.MaxRSChunkKey.
Proof.
  intros [Hn Hr] Hl. destruct (Hr k p Hl) as [H0 H1].
  unfold fits, uint64. rewrite (wrap_small 64 n) by lia.
  rewrite wrap_small by lia. done.
Qed.

(** C7.  On a store whose partition records carry their id and whose
    counters do not overflow 64 bits when N is added: if some partition
    satisfies next_rs_chunk_key + N ≤ MaxRSChunkKey, AllocateRSChunkIDs picks
    the one of the lowest id among them, returns the range start
    (RS-tagged partition id, old counter), with chunk key 1 in place of an old
    counter of 0, and stores the partition with the counter at the returned
    start plus N; if no partition fits it returns ErrGenBlobID and leaves the
    transaction untouched. *)
Theorem AllocateRSChunkIDs_lowest_fit (cmd : AllocateRSChunkIDsCommand.t)
    (txn : state.Txn) :
  let n := AllocateRSChunkIDsCommand.N cmd in
  keyed_by_id (state.db txn) →
  rs_keys_in_range n (state.db txn) →
  ((∃ k p, state.partitions (state.db txn) !! k = Some p ∧ fits n p) →
   ∃ k p,
     state.partitions (state.db txn) !! k = Some p
     ∧ fits n p
     ∧ (∀ k' p', state.partitions (state.db txn) !! k' = Some p' →
                 fits n p' → k ≤ k')
     ∧ let old := pb.GetNextRsChunkKey p in
       let start := if bool_decide (old = 0) then 1 else old in
       let p' := {| pb.Id := Some k; pb.NextBlobKey := pb.NextBlobKey p;
                    pb.NextRsChunkKey := Some (start + n) |} in
       let txn' := state.PutPartition p' txn in
       AllocateRSChunkIDsCommand.apply cmd txn
       = Done txn'
           {| AllocateRSChunkIDsResult.ID :=
                {| core.Partition := rs_tagged k; core.ID := start |};
              AllocateRSChunkIDsResult.Err := core.NoError |}
       ∧ state.GetPartition k txn' = Some p'
       ∧ (∀ k', k' ≠ k → state.GetPartition k' txn' = state.GetPartition k' txn))
  ∧ ((∀ k p, state.partitions (state.db txn) !! k = Some p → ¬ fits n p) →
     AllocateRSChunkIDsCommand.apply cmd txn
     = Done txn {| AllocateRSChunkIDsResult.ID := zeroRSChunkID;
                   AllocateRSChunkIDsResult.Err := core.ErrGenBlobID |}).
Proof.
  intros n Hid Hrange. unfold AllocateRSChunkIDsCommand.apply. fold n.
  destruct (list_find _ (state.GetPartitions txn)) as [[i p]|] eqn:Hf.
  - apply GetPartitions_find in Hf as (k & Hl & HP & Hmin).
    pose proof (Hid k p Hl) as Hk.
    assert (Hfit : fits n p) by (by eapply fits_iff).
    split; [|intros Hnone; by destruct (Hnone k p Hl)].
    intros _. exists k, p.
    split; [done|]. split; [done|]. split.
    { intros k' p' Hl' Hfit'. apply (Hmin k' p' Hl'). by eapply fits_iff. }
    cbv zeta. rewrite Hk.
    set (old := pb.GetNextRsChunkKey p).
    set (start := if bool_decide (old = 0) then 1 else old).
    assert (Hsum : uint64 (start + uint64 n) = start + n).
    { destruct Hrange as [Hn Hr]. destruct (Hr k p Hl) as [H0 H1].
      unfold uint64. rewrite (wrap_small 64 n) by lia.
      apply wrap_small. unfold start, old. case_bool_decide; lia. }
    rewrite Hsum. split; [|split].
    + done.
    + unfold state.GetPartition, pb.GetId. simpl. apply lookup_insert_eq.
    + intros k' Hne. unfold state.GetPartition, pb.GetId. simpl.
      by apply lookup_insert_ne.
  - rewrite GetPartitions_find_None in Hf. split; [|done].
    intros (k & p & Hl & Hfit). destruct (Hf k p Hl). by eapply fits_iff.
Qed.

Lemma AllocateRSChunkIDs_ok cmd txn :
  partitions_ok (state.db txn) →
  match AllocateRSChunkIDsCommand.apply cmd txn with
  | Done txn' _ | Panic txn' => partitions_ok (state.db txn')
  | Fatal => True
  end.
Proof.
  intros Hok. unfold AllocateRSChunkIDsCommand.apply.
  destruct (list_find _ (state.GetPartitions txn)) as [[i p]|] eqn:Hf; [|done].
  apply GetPartitions_find in Hf as (k & Hl & HP & _).
  pose proof Hok as [Hid Hset]. rewrite (Hid k p Hl).
  apply (PutPartition_ok _ k); [done|by apply (Hset k p)|done].
Qed.

End AllocateRSChunkIDs.

Lemma sample_rs_keys_in_range : rs_keys_in_range 5 sample.store.
Proof.
  split; [lia|]. each_sample_partition; vm_compute; split; congruence.
Qed.

Lemma AllocateRSChunkIDs_lowest_fit_witness :
  ∃ k start txn',
    @AllocateRSChunkIDsCommand.apply sample.decls
      {| AllocateRSChunkIDsCommand.N := 5 |} sample.txn
    = Done txn'
        {| AllocateRSChunkIDsResult.ID :=
             {| core.Partition := rs_tagged k; core.ID := start |};
           AllocateRSChunkIDsResult.Err := core.NoError |}.
Proof.
  destruct (@AllocateRSChunkIDs_lowest_fit sample.decls
              {| AllocateRSChunkIDsCommand.N := 5 |} sample.txn
              sample_keyed_by_id sample_rs_keys_in_range) as [H _].
  destruct H as (k & p & _ & _ & _ & H & _).
  - exists 1, (sample.partition 1 (2 ^ 32 - 1) 10). split; [reflexivity|].
    vm_compute. congruence.
  - exists k. eexists. eexists. exact H.
Defined.

(** Partition 1, at counter 10, is the lowest that has room for 5 keys. *)
Example AllocateRSChunkIDs_from_counter :
  ∃ txn',
    @AllocateRSChunkIDsCommand.apply sample.decls
      {| AllocateRSChunkIDsCommand.N := 5 |} sample.txn
    = Done txn'
        {| AllocateRSChunkIDsResult.ID :=
             {| core.Partition := 0x80000001; core.ID := 10 |};
           AllocateRSChunkIDsResult.Err := core.NoError |}
    ∧ pb.NextRsChunkKey <$> state.GetPartition 1 txn' = Some (Some 15).
Proof. eexists. split; vm_compute; reflexivity. Qed.

(** A request too large for partition 1 goes to partition 3, whose counter
    is 0: the range starts at chunk key 1. *)
Example AllocateRSChunkIDs_from_zero :
  ∃ txn',
    @AllocateRSChunkIDsCommand.apply sample.decls
      {| AllocateRSChunkIDsCommand.N := 2 ^ 48 - 5 |} sample.txn
    = Done txn'
        {| AllocateRSChunkIDsResult.ID :=
             {| core.Partition := 0x80000003; core.ID := 1 |};
           AllocateRSChunkIDsResult.Err := core.NoError |}
    ∧ pb.NextRsChunkKey <$> state.GetPartition 3 txn' = Some (Some (2 ^ 48 - 4)).
Proof. eexists. split; vm_compute; reflexivity. Qed.

(** ** Apply *)

Lemma txn_index_run_db {E} (f : state.State → state.State * E) txn :
  state.txn_index (state.run_db f txn).1 = state.txn_index txn.
Proof. unfold state.run_db. by destruct (f (state.db txn)). Qed.

Lemma txn_index_addPartition id txn :
  state.txn_index (addPartition id txn).1 = state.txn_index txn.
Proof. unfold addPartition. by destruct (state.GetPartition id txn). Qed.

Lemma txn_index_SyncPartitions ids txn :
  state.txn_index (foldl (λ txn id, (addPartition id txn).1) txn ids)
  = state.txn_index txn.
Proof.
  revert txn. induction ids as [|id ids IH]; intros txn; simpl; [done|].
  by rewrite IH, txn_index_addPartition.
Qed.

Lemma keeps_index_returns {R} (wrap : R → Result) txn (x : state.Txn * R) :
  state.txn_index x.1 = state.txn_index txn → keeps_index txn (returns wrap x).
Proof. done. Qed.

Lemma keeps_index_returned {R} (wrap : R → Result) txn (o : Outcome state.Txn R) :
  keeps_index txn o → keeps_index txn (returned wrap o).
Proof. by destruct o. Qed.

Lemma keeps_index_CreateBlob cmd txn :
  keeps_index txn (CreateBlobCommand.apply cmd txn).
Proof.
  unfold CreateBlobCommand.apply.
  destruct (list_find _ _) as [[i p]|]; [|done].
  by destruct (pb.NextBlobKey p).
Qed.

Lemma keeps_index_ExtendBlob cmd txn :
  state.txn_index (ExtendBlobCommand.apply cmd txn).1 = state.txn_index txn.
Proof.
  unfold ExtendBlobCommand.apply.
  destruct (state.GetBlob _ txn); [|done].
  by repeat case_bool_decide.
Qed.

Lemma keeps_index_ChangeTract cmd txn :
  keeps_index txn (ChangeTractCommand.apply cmd txn).
Proof.
  unfold ChangeTractCommand.apply.
  destruct (state.GetBlob _ txn) as [blob|]; [|done].
  case_bool_decide; [done|].
  destruct (index _ _); [|done].
  by repeat case_bool_decide.
Qed.

Lemma keeps_index_AllocateRSChunkIDs `{!core.Decls} cmd txn :
  keeps_index txn (AllocateRSChunkIDsCommand.apply cmd txn).
Proof.
  unfold AllocateRSChunkIDsCommand.apply.
  destruct (list_find _ _) as [[i p]|]; [|done].
  by destruct (pb.Id p).
Qed.

Lemma CreateBlob_not_Fatal cmd txn : CreateBlobCommand.apply cmd txn ≠ Fatal.
Proof.
  unfold CreateBlobCommand.apply.
  destruct (list_find _ _) as [[i p]|]; [|done].
  by destruct (pb.NextBlobKey p).
Qed.

Lemma ChangeTract_not_Fatal cmd txn : ChangeTractCommand.apply cmd txn ≠ Fatal.
Proof.
  unfold ChangeTractCommand.apply.
  destruct (state.GetBlob _ txn) as [blob|]; [|done].
  case_bool_decide; [done|].
  destruct (index _ _); [|done].
  by repeat case_bool_decide.
Qed.

Lemma AllocateRSChunkIDs_not_Fatal `{!core.Decls} cmd txn :
  AllocateRSChunkIDsCommand.apply cmd txn ≠ Fatal.
Proof.
  unfold AllocateRSChunkIDsCommand.apply.
  destruct (list_find _ _) as [[i p]|]; [|done].
  by destruct (pb.Id p).
Qed.

Lemma returned_Fatal {R} (wrap : R → Result) (o : Outcome state.Txn R) :
  returned wrap o = Fatal → o = Fatal.
Proof. by destruct o. Qed.

Section ApplyProperties.
Context `{!core.Decls, !state.Layer, !Decoder}.

Lemma keeps_index_dispatch cmd txn : keeps_index txn (dispatch cmd txn).
Proof.
  destruct cmd; cbn [dispatch]; try exact I;
    try (apply keeps_index_returned);
    try (apply (keeps_index_returns _ txn)).
  - unfold SetRegistrationCommand.apply. simpl. by destruct (negb _).
  - unfold AddPartitionCommand.apply.
    pose proof (txn_index_addPartition (AddPartitionCommand.ID c) txn).
    destruct (addPartition _ txn). simpl in *. done.
  - apply txn_index_SyncPartitions.
  - apply keeps_index_CreateBlob.
  - unfold DeleteBlobCommand.apply, state.DeleteBlob.
    pose proof (txn_index_run_db
                  (state.delete_blob (DeleteBlobCommand.ID c) (DeleteBlobCommand.When c))
                  txn).
    destruct (state.run_db _ txn). simpl in *. done.
  - apply txn_index_run_db.
  - unfold UndeleteBlobCommand.apply, state.UndeleteBlob.
    pose proof (txn_index_run_db
                  (state.undelete_blob (UndeleteBlobCommand.ID c)) txn).
    destruct (state.run_db _ txn). simpl in *. done.
  - apply txn_index_run_db.
  - apply keeps_index_ExtendBlob.
  - apply keeps_index_ChangeTract.
  - done.
  - apply keeps_index_AllocateRSChunkIDs.
  - apply txn_index_run_db.
  - apply txn_index_run_db.
  - apply txn_index_run_db.
  - apply txn_index_run_db.
Qed.

(** Only a command that none of the cases lists reaches the [log.Fatalf] of
    the last switch. *)
Lemma dispatch_Fatal cmd txn :
  dispatch cmd txn = Fatal →
  reads_only cmd = true ∨ is_SetReadOnlyMode cmd = true ∨ cmd = OtherCommand.
Proof.
  destruct cmd; cbn [dispatch]; auto; try discriminate.
  - intros Hf%returned_Fatal. by destruct (CreateBlob_not_Fatal c txn).
  - intros Hf%returned_Fatal. by destruct (ChangeTract_not_Fatal c txn).
  - intros Hf%returned_Fatal. by destruct (AllocateRSChunkIDs_not_Fatal c txn).
Qed.

Lemma keeps_index_applyWrite cmd txn : keeps_index txn (applyWrite cmd txn).
Proof.
  pose proof (keeps_index_dispatch cmd txn).
  unfold applyWrite. destruct cmd; try done;
    by destruct (state.GetReadOnlyMode txn).
Qed.

Lemma GetIndex_Commit h txn :
  GetIndex (set_state h (state.Commit txn)) = state.txn_index txn.
Proof. done. Qed.

(** [Apply] on an entry that is not a replay and does not carry a checksum
    command: the write transaction and its deferred commit. *)
Lemma Apply_write h ent :
  GetIndex h < raft.Index ent →
  reads_only (bytesToCmd (raft.Cmd ent)) = false →
  Apply h ent
  = match applyWrite (bytesToCmd (raft.Cmd ent))
            (state.WriteTxn (h_state h) (raft.Index ent)) with
    | Done txn res => Done (set_state h (state.Commit txn)) res
    | Panic txn => Panic (set_state h (state.Commit txn))
    | Fatal => Fatal
    end.
Proof.
  intros Hfresh Hcmd. unfold Apply.
  rewrite bool_decide_eq_false_2 by (unfold GetIndex in Hfresh; lia).
  by destruct (bytesToCmd (raft.Cmd ent)).
Qed.

Lemma Apply_replayed h ent :
  raft.Index ent ≤ GetIndex h → Apply h ent = Done h Nil.
Proof.
  intros Hle. unfold Apply. by rewrite bool_decide_eq_true_2.
Qed.

Lemma Apply_Checksum h ent c :
  GetIndex h < raft.Index ent →
  bytesToCmd (raft.Cmd ent) = Checksum c →
  Apply h ent
  = let '(cksum, next) :=
      state.checksum_blobs (state.blobs (h_state h))
        (ChecksumCommand.Start c) (ChecksumCommand.N c) in
    Done {| h_state := h_state h; h_checksum := cksum;
            h_checksumIndex := raft.Index ent |}
         (OfChecksum {| cr_Next := next; cr_Checksum := cksum;
                        cr_Index := raft.Index ent |}).
Proof.
  intros Hfresh Hcmd. unfold Apply.
  rewrite bool_decide_eq_false_2 by (unfold GetIndex in Hfresh; lia).
  rewrite Hcmd. unfold checksumRequest, state.Checksum. simpl.
  by destruct (state.checksum_blobs _ _ _).
Qed.

Lemma Apply_VerifyChecksum h ent c :
  GetIndex h < raft.Index ent →
  bytesToCmd (raft.Cmd ent) = VerifyChecksum c →
  Apply h ent
  = match verifyChecksum h c with
    | Done h _ => Done h Nil
    | Panic h => Panic h
    | Fatal => Fatal
    end.
Proof.
  intros Hfresh Hcmd. unfold Apply.
  rewrite bool_decide_eq_false_2 by (unfold GetIndex in Hfresh; lia).
  by rewrite Hcmd.
Qed.

Lemma verifyChecksum_cases h c :
  verifyChecksum h c
  = if bool_decide (h_checksumIndex h = VerifyChecksumCommand.Index c
                    ∧ h_checksum h ≠ VerifyChecksumCommand.Checksum c)
    then Fatal else Done h tt.
Proof.
  unfold verifyChecksum.
  destruct (decide (h_checksumIndex h = VerifyChecksumCommand.Index c));
    repeat case_bool_decide; try done; exfalso; tauto.
Qed.

End ApplyProperties.

Section ApplyTheorems.
Context `{!core.Decls, !state.Layer, !Decoder}.

(** What a write command leaves behind: the index of the entry. *)
Lemma Apply_write_index h ent :
  GetIndex h < raft.Index ent →
  reads_only (bytesToCmd (raft.Cmd ent)) = false →
  match Apply h ent with
  | Done h' _ | Panic h' => GetIndex h' = raft.Index ent
  | Fatal => True
  end.
Proof.
  intros Hfresh Hcmd. rewrite Apply_write by done.
  pose proof (keeps_index_applyWrite (bytesToCmd (raft.Cmd ent))
                (state.WriteTxn (h_state h) (raft.Index ent))) as Hk.
  destruct (applyWrite _ _); [|by idtac..]; by rewrite GetIndex_Commit.
Qed.

(** C2, as the code has it.  For an entry with an index above the stored
    applied index whose command is neither Checksum nor VerifyChecksum:
    when Apply returns (and also when a handler panics, through the deferred
    commit) GetIndex is the index of the entry; in read-only mode Apply does
    return; and it exits without committing only for an unknown command
    outside read-only mode.  For a Checksum or VerifyChecksum entry Apply uses
    the read-only transaction alone and the applied index stays as it
    was. *)
Theorem Apply_advances_index (h : StateHandler) (ent : raft.Entry) :
  GetIndex h < raft.Index ent →
  let cmd := bytesToCmd (raft.Cmd ent) in
  (reads_only cmd = false →
     (∀ h' r, Apply h ent = Done h' r → GetIndex h' = raft.Index ent)
     ∧ (∀ h', Apply h ent = Panic h' → GetIndex h' = raft.Index ent)
     ∧ (Apply h ent = Fatal →
        cmd = OtherCommand ∧ state.read_only (h_state h) = false)
     ∧ (state.read_only (h_state h) = true → ∃ h' r, Apply h ent = Done h' r))
  ∧ (reads_only cmd = true →
     (∀ h' r, Apply h ent = Done h' r → GetIndex h' = GetIndex h)
     ∧ (∀ h', Apply h ent ≠ Panic h')).
Proof.
  intros Hfresh cmd. split; intros Hcmd.
  - pose proof (Apply_write_index h ent Hfresh Hcmd) as Hi.
    split_and!.
    + intros h' r Heq. by rewrite Heq in Hi.
    + intros h' Heq. by rewrite Heq in Hi.
    + rewrite Apply_write by done. fold cmd.
      destruct (applyWrite cmd _) eqn:Hw; try discriminate. intros _.
      unfold applyWrite, state.GetReadOnlyMode in Hw. simpl in Hw.
      destruct (state.read_only (h_state h)).
      { by destruct cmd. }
      assert (dispatch cmd (state.WriteTxn (h_state h) (raft.Index ent)) = Fatal)
        as Hd%dispatch_Fatal by (by destruct cmd).
      destruct Hd as [Hd|[Hd|Hd]]; [congruence| |done].
      by destruct cmd.
    + intros Hro. rewrite Apply_write by done. fold cmd. unfold applyWrite.
      unfold state.GetReadOnlyMode. simpl. rewrite Hro.
      destruct cmd; eauto.
  - destruct cmd as [c|c| | | | | | | | | | | | | | | | | | ] eqn:Hc;
      try discriminate Hcmd.
    + rewrite (Apply_Checksum h ent c) by done.
      destruct (state.checksum_blobs _ _ _). split.
      * by intros h' r [= <- _].
      * intros h'. discriminate.
    + rewrite (Apply_VerifyChecksum h ent c), verifyChecksum_cases by done.
      case_bool_decide; split.
      * discriminate.
      * intros h'. discriminate.
      * by intros h' r [= <- _].
      * intros h'. discriminate.
Qed.

(** C3.  An entry whose index is not above the stored applied index is
    answered with nil and the whole handler state, store and applied index
    included, stays as it is; and after an application of an entry that
    returned, applying the same entry again leaves the state as the first
    application left it. *)
Theorem Apply_replay_safe (h : StateHandler) (ent : raft.Entry) :
  (raft.Index ent ≤ GetIndex h → Apply h ent = Done h Nil)
  ∧ (∀ h1 r, Apply h ent = Done h1 r → ∃ r', Apply h1 ent = Done h1 r').
Proof.
  split; [apply Apply_replayed|].
  intros h1 r Heq.
  destruct (decide (raft.Index ent ≤ GetIndex h)) as [Hle|Hfresh].
  { rewrite Apply_replayed in Heq by done. injection Heq as <- _.
    exists Nil. by apply Apply_replayed. }
  assert (GetIndex h < raft.Index ent) as Hlt by lia.
  destruct (reads_only (bytesToCmd (raft.Cmd ent))) eqn:Hcmd.
  - destruct (bytesToCmd (raft.Cmd ent)) as [c|c| | | | | | | | | | | | | | | | | | ] eqn:Hc;
      try discriminate Hcmd.
    + rewrite (Apply_Checksum h ent c) in Heq by done.
      destruct (state.checksum_blobs _ _ _) as [cksum next] eqn:Hck.
      injection Heq as <- <-.
      eexists. rewrite (Apply_Checksum _ ent c) by done.
      simpl. by rewrite Hck.
    + rewrite (Apply_VerifyChecksum h ent c), verifyChecksum_cases in Heq by done.
      case_bool_decide; [discriminate|]. injection Heq as <- <-.
      exists Nil. rewrite (Apply_VerifyChecksum h ent c), verifyChecksum_cases by done.
      by rewrite bool_decide_eq_false_2.
  - pose proof (Apply_write_index h ent Hlt Hcmd) as Hi.
    rewrite Heq in Hi. exists Nil. apply Apply_replayed. lia.
Qed.

Lemma verifyChecksum_with_read_only b h c :
  verifyChecksum (with_read_only b h) c
  = on_state (with_read_only b) (verifyChecksum h c).
Proof. rewrite !verifyChecksum_cases. simpl. by case_bool_decide. Qed.

(** C8.  For an entry with an index above the stored applied index: a
    SetReadOnlyMode command is applied whatever the flag is, and committed
    at the index of the entry; while the flag is set, every command other
    than SetReadOnlyMode, Checksum and VerifyChecksum is answered with
    ErrReadOnlyMode and the commit changes nothing but the applied index.
    Checksum and VerifyChecksum do not look at the flag: Apply gives the same
    outcome whatever the flag is. *)
Theorem read_only_gate (h : StateHandler) (ent : raft.Entry) :
  GetIndex h < raft.Index ent →
  let cmd := bytesToCmd (raft.Cmd ent) in
  (∀ c, cmd = SetReadOnlyMode c →
     Apply h ent
     = Done (set_state h
               (state.set_applied_index
                  (state.set_read_only (h_state h) (SetReadOnlyModeCommand.ReadOnly c))
                  (raft.Index ent)))
            (OfError core.NoError))
  ∧ (state.read_only (h_state h) = true →
     reads_only cmd = false → is_SetReadOnlyMode cmd = false →
     Apply h ent
     = Done (set_state h (state.set_applied_index (h_state h) (raft.Index ent)))
            (OfError core.ErrReadOnlyMode))
  ∧ (reads_only cmd = true →
     ∀ b, Apply (with_read_only b h) ent
          = on_state (with_read_only b) (Apply h ent)).
Proof.
  intros Hfresh cmd. split_and!.
  - intros c Hc. rewrite Apply_write by (by fold cmd; rewrite ?Hc).
    fold cmd. by rewrite Hc.
  - intros Hro Hcmd Hset. rewrite Apply_write by done. fold cmd.
    unfold applyWrite, state.GetReadOnlyMode. simpl. rewrite Hro.
    by destruct cmd.
  - intros Hcmd b.
    assert (GetIndex (with_read_only b h) < raft.Index ent) as Hfresh' by done.
    destruct cmd as [c|c| | | | | | | | | | | | | | | | | | ] eqn:Hc;
      try discriminate Hcmd.
    + rewrite !(Apply_Checksum _ ent c) by done. simpl.
      by destruct (state.checksum_blobs _ _ _).
    + rewrite !(Apply_VerifyChecksum _ ent c) by done.
      rewrite verifyChecksum_with_read_only.
      by destruct (verifyChecksum h c).
Qed.

(** C9.  verifyChecksum reaches its fatal branch iff the cached index is the
    expected index and the cached checksum is not the expected checksum;
    when the indices differ it returns; whenever it returns, the handler,
    store and cached pair included, is as before.  The same holds for Apply
    on a VerifyChecksum entry with an index above the stored applied
    index. *)
Theorem verifyChecksum_fatal_iff (h : StateHandler) (c : VerifyChecksumCommand.t) :
  let diverged := h_checksumIndex h = VerifyChecksumCommand.Index c
                  ∧ h_checksum h ≠ VerifyChecksumCommand.Checksum c in
  (verifyChecksum h c = Fatal ↔ diverged)
  ∧ (h_checksumIndex h ≠ VerifyChecksumCommand.Index c →
     verifyChecksum h c = Done h tt)
  ∧ (¬ diverged → verifyChecksum h c = Done h tt)
  ∧ ∀ ent,
      GetIndex h < raft.Index ent →
      bytesToCmd (raft.Cmd ent) = VerifyChecksum c →
      (Apply h ent = Fatal ↔ diverged)
      ∧ (¬ diverged → Apply h ent = Done h Nil).
Proof.
  intros diverged. rewrite verifyChecksum_cases. fold diverged.
  split_and!.
  - by case_bool_decide.
  - intros Hne. rewrite bool_decide_eq_false_2; [done|]. by intros [? _].
  - intros Hnd. by rewrite bool_decide_eq_false_2.
  - intros ent Hfresh Hcmd.
    rewrite (Apply_VerifyChecksum h ent c), verifyChecksum_cases by done.
    fold diverged. by case_bool_decide.
Qed.

End ApplyTheorems.

(** C2, counterexample to the claim as stated: a Checksum entry at index 8
    on a store whose applied index is 7 returns, and the applied index is
    still 7. *)
Lemma Apply_Checksum_index_not_advanced :
  let h' := {| h_state := sample.store; h_checksum := 3; h_checksumIndex := 8 |} in
  GetIndex sample.handler = 7
  ∧ @Apply sample.decls sample.layer
      (sample.decoder
         (Checksum {| ChecksumCommand.Start := (0, 0); ChecksumCommand.N := 10 |}))
      sample.handler (sample.entry 8)
    = Done h' (OfChecksum {| cr_Next := (0, 0); cr_Checksum := 3; cr_Index := 8 |})
  ∧ GetIndex h' = 7.
Proof. split_and!; reflexivity. Qed.

Lemma Apply_advances_index_witness :
  ∃ h' r,
    @Apply sample.decls sample.layer
      (sample.decoder (AddPartition {| AddPartitionCommand.ID := 5 |}))
      sample.handler (sample.entry 8)
    = Done h' r
    ∧ GetIndex h' = 8.
Proof.
  eexists _, _. split; [vm_compute; reflexivity|].
  destruct (@Apply_advances_index sample.decls sample.layer
              (sample.decoder (AddPartition {| AddPartitionCommand.ID := 5 |}))
              sample.handler (sample.entry 8)) as [H _]; [reflexivity|].
  destruct H as [H _]; [reflexivity|].
  eapply H. vm_compute. reflexivity.
Defined.

Lemma Apply_replay_safe_witness :
  @Apply sample.decls sample.layer
    (sample.decoder (AddPartition {| AddPartitionCommand.ID := 5 |}))
    sample.handler (sample.entry 7)
  = Done sample.handler Nil.
Proof.
  apply (proj1 (@Apply_replay_safe sample.decls sample.layer
                  (sample.decoder (AddPartition {| AddPartitionCommand.ID := 5 |}))
                  sample.handler (sample.entry 7))).
  vm_compute. congruence.
Defined.

Lemma read_only_gate_witness :
  let create := CreateBlob {| CreateBlobCommand.Repl := 3; CreateBlobCommand.Hint := 0;
                              CreateBlobCommand.InitialTime := 100;
                              CreateBlobCommand.Expires := 0 |} in
  let h := with_read_only true sample.handler in
  @Apply sample.decls sample.layer (sample.decoder create) h (sample.entry 8)
  = Done (set_state h (state.set_applied_index (h_state h) 8))
         (OfError core.ErrReadOnlyMode).
Proof.
  intros create h.
  destruct (@read_only_gate sample.decls sample.layer (sample.decoder create)
              h (sample.entry 8)) as (_ & H & _); [reflexivity|].
  apply H; reflexivity.
Defined.

Lemma verifyChecksum_fatal_iff_witness :
  verifyChecksum sample.handler
    {| VerifyChecksumCommand.Index := 0; VerifyChecksumCommand.Checksum := 1 |}
  = Fatal.
Proof.
  apply (proj1 (@verifyChecksum_fatal_iff sample.decls sample.layer
                  (sample.decoder OtherCommand) sample.handler
                  {| VerifyChecksumCommand.Index := 0;
                     VerifyChecksumCommand.Checksum := 1 |})).
  simpl. split; [reflexivity|discriminate].
Defined.

(** What the panic of ChangeTract leaves behind in [Apply]: the deferred
    commit has stored the index of the entry, so a restarted replica skips the
    entry as a replay. *)
Example Apply_ChangeTract_panic_commits :
  @Apply sample.decls sample.layer
    (sample.decoder
       (ChangeTract
          {| ChangeTractCommand.ID := {| core.Blob := (1, 1); core.Index := 1 |};
             ChangeTractCommand.NewHosts := [7; 8; 9];
             ChangeTractCommand.NewVersion := 2 |}))
    sample.handler (sample.entry 8)
  = Panic (set_state sample.handler (state.set_applied_index sample.store 8)).
Proof. reflexivity. Qed.

(** The read-only scenario of the spec, run on the model: SetReadOnlyMode
    (true); CreateBlob is refused; SetReadOnlyMode(false); CreateBlob
    succeeds; every entry advances the applied index. *)
Example scenario_read_only_gate :
  let o1 := sample.run (sample.set_mode true) sample.handler 8 in
  let o2 := sample.next o1 sample.create 9 in
  let o3 := sample.next o2 (sample.set_mode false) 10 in
  let o4 := sample.next o3 sample.create 11 in
  sample.value o1 = Some (OfError core.NoError)
  ∧ sample.value o2 = Some (OfError core.ErrReadOnlyMode)
  ∧ sample.value o3 = Some (OfError core.NoError)
  ∧ sample.value o4
    = Some (OfCreateBlob {| CreateBlobResult.ID := (3, 1);
                            CreateBlobResult.Err := core.NoError |})
  ∧ GetIndex <$> sample.after o4 = Some 11.
Proof. vm_compute. split_and!; reflexivity. Qed.

(** The basic lifecycle of the spec: AddPartition(1); CreateBlob gives blob
    (1,1); ExtendBlob at key 0 gives size 1; ChangeTract to version 2
    succeeds and the tract has the new hosts. *)
Example scenario_basic_lifecycle :
  let o1 := sample.run (sample.add_partition 1) sample.fresh 1 in
  let o2 := sample.next o1 sample.create 2 in
  let o3 := sample.next o2 (sample.extend 0) 3 in
  let o4 := sample.next o3 (sample.change 2) 4 in
  sample.value o2
  = Some (OfCreateBlob {| CreateBlobResult.ID := (1, 1);
                          CreateBlobResult.Err := core.NoError |})
  ∧ sample.value o3
    = Some (OfExtendBlob {| ExtendBlobResult.Err := core.NoError;
                            ExtendBlobResult.NewSize := 1 |})
  ∧ ChangeTractResult.Err <$>
      (sample.value o4 ≫= λ r, match r with OfChangeTract r => Some r | _ => None end)
    = Some core.NoError
  ∧ sample.tracts_of o4 = Some [ {| pb.Hosts := [7; 8; 9]; pb.Version := 2 |} ].
Proof. vm_compute. split_and!; reflexivity. Qed.

(** Extend twice with the same key: the second is refused and the blob has
    one tract. *)
Example scenario_extend_idempotence :
  let o1 := sample.run (sample.add_partition 1) sample.fresh 1 in
  let o2 := sample.next o1 sample.create 2 in
  let o3 := sample.next o2 (sample.extend 0) 3 in
  let o4 := sample.next o3 (sample.extend 0) 4 in
  sample.value o4
  = Some (OfExtendBlob {| ExtendBlobResult.Err := core.ErrExtendConflict;
                          ExtendBlobResult.NewSize := 0 |})
  ∧ length <$> sample.tracts_of o4 = Some 1%nat.
Proof. vm_compute. split_and!; reflexivity. Qed.

(** Replay of the CreateBlob entry at its index: nil, and nothing changes. *)
Example scenario_replay :
  let o1 := sample.run (sample.add_partition 1) sample.fresh 1 in
  let o2 := sample.next o1 sample.create 2 in
  let o3 := sample.next o2 (sample.extend 0) 3 in
  let o4 := sample.next o3 sample.create 2 in
  sample.value o4 = Some Nil ∧ sample.after o4 = sample.after o3.
Proof. vm_compute. split_and!; reflexivity. Qed.

(** * Further properties of the handlers *)

(** ** Transactions that differ in one bucket *)

Lemma same_but_partitions_refl t : same_but_partitions t t.
Proof. unfold same_but_partitions. by destruct t as [i []]. Qed.

Lemma same_but_partitions_PutPartition p t :
  same_but_partitions t (state.PutPartition p t).
Proof. unfold same_but_partitions. by destruct t as [i []]. Qed.

Lemma same_but_partitions_trans t1 t2 t3 :
  same_but_partitions t1 t2 → same_but_partitions t2 t3 →
  same_but_partitions t1 t3.
Proof.
  unfold same_but_partitions. intros -> ->. by destruct t1 as [i []].
Qed.

Lemma same_but_partitions_eq t t1 t2 :
  same_but_partitions t t1 → same_but_partitions t t2 →
  state.partitions (state.db t1) = state.partitions (state.db t2) →
  t1 = t2.
Proof. unfold same_but_partitions. intros -> -> Heq. simpl in *. by rewrite Heq. Qed.

Lemma same_but_blobs_refl t : same_but_blobs t t.
Proof. unfold same_but_blobs. by destruct t as [i []]. Qed.

Lemma same_but_blobs_PutBlob id b t : same_but_blobs t (state.PutBlob id b t).
Proof. unfold same_but_blobs. by destruct t as [i []]. Qed.

(** ** AddPartition and SyncPartitions *)

Lemma addPartition_lookup id txn k :
  is_uint32 id →
  state.GetPartition k (addPartition id txn).1
  = match state.GetPartition k txn with
    | Some p => Some p
    | None => if bool_decide (k = id) then Some (new_partition id) else None
    end.
Proof.
  intros Hid. unfold addPartition.
  destruct (state.GetPartition id txn) as [q|] eqn:Hq; simpl.
  - destruct (state.GetPartition k txn) eqn:Hk; [done|].
    case_bool_decide; [|done]. subst. congruence.
  - unfold state.GetPartition in *. simpl. unfold pb.GetId. simpl.
    unfold uint32. rewrite wrap_small by done. rewrite lookup_insert.
    case_decide as Hd.
    + subst. rewrite Hq. by rewrite bool_decide_eq_true_2.
    + destruct (state.partitions (state.db txn) !! k); [done|].
      by rewrite bool_decide_eq_false_2.
Qed.

Lemma addPartition_same_but_partitions id txn :
  same_but_partitions txn (addPartition id txn).1.
Proof.
  unfold addPartition. destruct (state.GetPartition id txn); simpl.
  - apply same_but_partitions_refl.
  - apply same_but_partitions_PutPartition.
Qed.

(** X1.  AddPartition of an id that is stored answers AlreadyExists and
    leaves the transaction as it is, the counters of the partition
    included; of an id that is not stored, it answers NoError and stores the
    partition with next_blob_key 1 and no next_rs_chunk_key, every other
    record staying as it was; a second AddPartition of the id is then
    answered with AlreadyExists and changes nothing. *)
Theorem AddPartition_only_once (cmd : AddPartitionCommand.t) (txn : state.Txn) :
  let id := AddPartitionCommand.ID cmd in
  is_uint32 id →
  (is_Some (state.GetPartition id txn) →
   AddPartitionCommand.apply cmd txn = (txn, {| apr_Err := core.ErrAlreadyExists |}))
  ∧ (state.GetPartition id txn = None →
     let txn' := (AddPartitionCommand.apply cmd txn).1 in
     (AddPartitionCommand.apply cmd txn).2 = {| apr_Err := core.NoError |}
     ∧ state.GetPartition id txn' = Some (new_partition id)
     ∧ (∀ k, k ≠ id → state.GetPartition k txn' = state.GetPartition k txn)
     ∧ same_but_partitions txn txn'
     ∧ AddPartitionCommand.apply cmd txn'
       = (txn', {| apr_Err := core.ErrAlreadyExists |})).
Proof.
  intros id Hid.
  assert (Hfst : ∀ t, (AddPartitionCommand.apply cmd t).1 = (addPartition id t).1).
  { intros t. unfold AddPartitionCommand.apply. fold id.
    by destruct (addPartition id t). }
  assert (Hexists : ∀ t, is_Some (state.GetPartition id t) →
            AddPartitionCommand.apply cmd t
            = (t, {| apr_Err := core.ErrAlreadyExists |})).
  { intros t [p Hp]. unfold AddPartitionCommand.apply, addPartition. fold id.
    by rewrite Hp. }
  split; [apply Hexists|].
  intros Hnone txn'.
  assert (Hl : ∀ k, state.GetPartition k txn'
               = match state.GetPartition k txn with
                 | Some p => Some p
                 | None => if bool_decide (k = id) then Some (new_partition id)
                           else None
                 end).
  { intros k. unfold txn'. rewrite Hfst. by apply addPartition_lookup. }
  split_and!.
  - unfold AddPartitionCommand.apply, addPartition. fold id. by rewrite Hnone.
  - rewrite Hl, Hnone. by rewrite bool_decide_eq_true_2.
  - intros k Hk. rewrite Hl. destruct (state.GetPartition k txn); [done|].
    by rewrite bool_decide_eq_false_2.
  - unfold txn'. rewrite Hfst. apply addPartition_same_but_partitions.
  - apply Hexists. rewrite Hl, Hnone. rewrite bool_decide_eq_true_2 by done.
    by eexists.
Qed.

Lemma AddPartition_only_once_witness :
  let cmd := {| AddPartitionCommand.ID := 5 |} in
  let txn' := (AddPartitionCommand.apply cmd sample.txn).1 in
  state.GetPartition 5 txn' = Some (new_partition 5)
  ∧ AddPartitionCommand.apply cmd txn'
    = (txn', {| apr_Err := core.ErrAlreadyExists |}).
Proof.
  intros cmd txn'.
  destruct (AddPartition_only_once cmd sample.txn) as [_ H];
    [unfold is_uint32; simpl; lia|].
  destruct H as (_ & H1 & _ & _ & H2); [reflexivity|].
  split; [exact H1|exact H2].
Defined.

Lemma sync_lookup ids txn k :
  Forall is_uint32 ids →
  state.GetPartition k (foldl (λ txn id, (addPartition id txn).1) txn ids)
  = match state.GetPartition k txn with
    | Some p => Some p
    | None => if bool_decide (k ∈ ids) then Some (new_partition k) else None
    end.
Proof.
  intros Hids. revert txn.
  induction Hids as [|id ids Hid _ IH]; intros txn; cbn [foldl].
  - destruct (state.GetPartition k txn); [done|].
    rewrite bool_decide_eq_false_2; [done|]. apply not_elem_of_nil.
  - rewrite IH, addPartition_lookup by done.
    destruct (state.GetPartition k txn); [done|].
    rewrite (bool_decide_ext (k ∈ id :: ids) (k = id ∨ k ∈ ids))
      by apply elem_of_cons.
    repeat case_bool_decide; subst; try done; exfalso; tauto.
Qed.

Lemma sync_same_but_partitions ids txn :
  same_but_partitions txn (foldl (λ txn id, (addPartition id txn).1) txn ids).
Proof.
  revert txn. induction ids as [|id ids IH]; intros txn; simpl.
  - apply same_but_partitions_refl.
  - eapply same_but_partitions_trans; [apply addPartition_same_but_partitions|].
    apply IH.
Qed.

(** X2.  SyncPartitions never fails.  After it every listed id is stored;
    a partition that was stored before keeps its record, counters included;
    a listed id that was not stored gets the record of a new partition; an
    id that is neither stays absent; and nothing but the partition bucket
    changes. *)
Theorem SyncPartitions_adds_missing (cmd : SyncPartitionsCommand.t)
    (txn : state.Txn) :
  Forall is_uint32 (SyncPartitionsCommand.Partitions cmd) →
  let txn' := (SyncPartitionsCommand.apply cmd txn).1 in
  (SyncPartitionsCommand.apply cmd txn).2 = {| spr_Err := core.NoError |}
  ∧ (∀ k, k ∈ SyncPartitionsCommand.Partitions cmd →
          is_Some (state.GetPartition k txn'))
  ∧ (∀ k p, state.GetPartition k txn = Some p →
            state.GetPartition k txn' = Some p)
  ∧ (∀ k, state.GetPartition k txn = None →
          k ∈ SyncPartitionsCommand.Partitions cmd →
          state.GetPartition k txn' = Some (new_partition k))
  ∧ (∀ k, state.GetPartition k txn = None →
          k ∉ SyncPartitionsCommand.Partitions cmd →
          state.GetPartition k txn' = None)
  ∧ same_but_partitions txn txn'.
Proof.
  intros Hids txn'.
  assert (Hl := λ k, sync_lookup (SyncPartitionsCommand.Partitions cmd) txn k Hids).
  change (foldl _ txn _) with txn' in Hl.
  split_and!; [done| | | | |apply sync_same_but_partitions].
  - intros k Hk. rewrite Hl. destruct (state.GetPartition k txn); [by eexists|].
    rewrite bool_decide_eq_true_2 by done. by eexists.
  - intros k p Hp. by rewrite Hl, Hp.
  - intros k Hn Hk. rewrite Hl, Hn. by rewrite bool_decide_eq_true_2.
  - intros k Hn Hk. rewrite Hl, Hn. by rewrite bool_decide_eq_false_2.
Qed.

Lemma SyncPartitions_adds_missing_witness :
  let cmd := {| SyncPartitionsCommand.Partitions := [3; 5; 5] |} in
  let txn' := (SyncPartitionsCommand.apply cmd sample.txn).1 in
  state.GetPartition 3 txn' = Some (sample.partition 3 1 0)
  ∧ state.GetPartition 5 txn' = Some (new_partition 5).
Proof.
  intros cmd txn'.
  destruct (SyncPartitions_adds_missing cmd sample.txn) as (_ & _ & H3 & H5 & _).
  - repeat constructor; unfold is_uint32; simpl; lia.
  - split; [apply H3; reflexivity|apply H5; [reflexivity|]].
    apply list_elem_of_further, list_elem_of_here.
Defined.

(** X3.  What SyncPartitions leaves depends on the set of the listed ids
    only, not on their order or on repetitions; and a second SyncPartitions
    of the same ids changes nothing. *)
Theorem SyncPartitions_set_of_ids (cmd cmd' : SyncPartitionsCommand.t)
    (txn : state.Txn) :
  Forall is_uint32 (SyncPartitionsCommand.Partitions cmd) →
  Forall is_uint32 (SyncPartitionsCommand.Partitions cmd') →
  (∀ k, k ∈ SyncPartitionsCommand.Partitions cmd
        ↔ k ∈ SyncPartitionsCommand.Partitions cmd') →
  SyncPartitionsCommand.apply cmd' txn = SyncPartitionsCommand.apply cmd txn
  ∧ SyncPartitionsCommand.apply cmd' (SyncPartitionsCommand.apply cmd txn).1
    = SyncPartitionsCommand.apply cmd txn.
Proof.
  intros Hids Hids' Hsame.
  assert (Heq : ∀ t1 t2 ids1 ids2,
            Forall is_uint32 ids1 → Forall is_uint32 ids2 →
            same_but_partitions t1 t2 →
            (∀ k, state.GetPartition k
                    (foldl (λ txn id, (addPartition id txn).1) t2 ids2)
                  = state.GetPartition k
                      (foldl (λ txn id, (addPartition id txn).1) t1 ids1)) →
            foldl (λ txn id, (addPartition id txn).1) t2 ids2
            = foldl (λ txn id, (addPartition id txn).1) t1 ids1).
  { intros t1 t2 ids1 ids2 H1 H2 Ht Hl.
    eapply (same_but_partitions_eq t1).
    - eapply same_but_partitions_trans; [exact Ht|].
      apply sync_same_but_partitions.
    - apply sync_same_but_partitions.
    - apply map_eq. intros k. apply Hl. }
  unfold SyncPartitionsCommand.apply. simpl. split; f_equal.
  - apply Heq; [done|done|apply same_but_partitions_refl|].
    intros k. rewrite !sync_lookup by done.
    destruct (state.GetPartition k txn); [done|].
    by rewrite (bool_decide_ext _ _ (Hsame k)).
  - set (t1 := foldl _ txn (SyncPartitionsCommand.Partitions cmd)).
    change t1 with (foldl (λ txn id, (addPartition id txn).1) t1 []) at 2.
    apply Heq; [constructor|done|apply same_but_partitions_refl|].
    intros k. simpl. rewrite sync_lookup by done.
    unfold t1. rewrite sync_lookup by done.
    destruct (state.GetPartition k txn); [done|].
    case_bool_decide as Hk; [done|].
    rewrite bool_decide_eq_false_2; [done|]. by rewrite <- Hsame.
Qed.

Lemma SyncPartitions_set_of_ids_witness :
  SyncPartitionsCommand.apply
    {| SyncPartitionsCommand.Partitions := [5; 3; 9; 5] |} sample.txn
  = SyncPartitionsCommand.apply
      {| SyncPartitionsCommand.Partitions := [9; 5; 3] |} sample.txn.
Proof.
  apply (SyncPartitions_set_of_ids
           {| SyncPartitionsCommand.Partitions := [9; 5; 3] |}
           {| SyncPartitionsCommand.Partitions := [5; 3; 9; 5] |} sample.txn).
  - repeat constructor; unfold is_uint32; simpl; lia.
  - repeat constructor; unfold is_uint32; simpl; lia.
  - intros k. simpl. rewrite !elem_of_cons, !elem_of_nil. tauto.
Defined.

(** ** SetRegistration *)

(** X4.  SetRegistration returns the curator id that is stored when it
    returns.  A stored id that is valid is never replaced: the command then
    changes nothing and returns the stored id; otherwise the id of the
    command is stored.  So after a SetRegistration with a valid id every
    further SetRegistration, whatever id it carries, changes nothing and
    returns the same id. *)
Theorem SetRegistration_first_valid_wins `{!core.Decls}
    (cmd : SetRegistrationCommand.t) (txn : state.Txn) :
  let txn' := (SetRegistrationCommand.apply cmd txn).1 in
  let r := (SetRegistrationCommand.apply cmd txn).2 in
  srr_ID r = state.GetCuratorID txn'
  ∧ (core.IsValid (state.GetCuratorID txn) = true →
     txn' = txn ∧ srr_ID r = state.GetCuratorID txn)
  ∧ (core.IsValid (state.GetCuratorID txn) = false →
     txn' = state.SetCuratorID (SetRegistrationCommand.ID cmd) txn
     ∧ srr_ID r = SetRegistrationCommand.ID cmd)
  ∧ (core.IsValid (SetRegistrationCommand.ID cmd) = true →
     ∀ later, SetRegistrationCommand.apply later txn' = (txn', r)).
Proof.
  intros txn' r. unfold txn', r, SetRegistrationCommand.apply. simpl.
  destruct (core.IsValid (state.GetCuratorID txn)) eqn:Hv; simpl.
  - split_and!; [done|done|discriminate|].
    intros _ later. by rewrite Hv.
  - split_and!; [done|discriminate|done|].
    intros Hc later.
    change (state.GetCuratorID
              (state.SetCuratorID (SetRegistrationCommand.ID cmd) txn))
      with (SetRegistrationCommand.ID cmd).
    by rewrite Hc.
Qed.

Lemma SetRegistration_first_valid_wins_witness :
  let first := @SetRegistrationCommand.apply sample.decls
                 {| SetRegistrationCommand.ID := 9 |}
                 (state.WriteTxn (h_state sample.fresh) 1) in
  srr_ID first.2 = 9
  ∧ @SetRegistrationCommand.apply sample.decls
      {| SetRegistrationCommand.ID := 4 |} first.1
    = first.
Proof.
  intros first.
  destruct (@SetRegistration_first_valid_wins sample.decls
              {| SetRegistrationCommand.ID := 9 |}
              (state.WriteTxn (h_state sample.fresh) 1)) as (_ & _ & H9 & Hl).
  split.
  - apply H9. reflexivity.
  - unfold first. etransitivity; [apply (Hl eq_refl)|].
    by destruct (SetRegistrationCommand.apply _ _).
Defined.

(** ** What each handler can answer *)

(** ExtendBlob either refuses, with the transaction as it was, or writes
    the extended blob back. *)
Lemma ExtendBlob_inv cmd txn :
  (∃ e, e ≠ core.NoError
        ∧ ExtendBlobCommand.apply cmd txn = ExtendBlobCommand.fail txn e)
  ∨ (∃ blob,
       state.GetBlob (ExtendBlobCommand.ID cmd) txn = Some blob
       ∧ ExtendBlobCommand.FirstTractKey cmd = len (pb.Tracts blob)
       ∧ Forall (λ h, len h = pb.GetRepl blob) (ExtendBlobCommand.Hosts cmd)
       ∧ ExtendBlobCommand.apply cmd txn
         = (state.PutBlob (ExtendBlobCommand.ID cmd)
              (extended blob (ExtendBlobCommand.Hosts cmd)) txn,
            {| ExtendBlobResult.Err := core.NoError;
               ExtendBlobResult.NewSize :=
                 len (pb.Tracts blob) + len (ExtendBlobCommand.Hosts cmd) |})).
Proof.
  destruct (state.GetBlob (ExtendBlobCommand.ID cmd) txn) as [blob|] eqn:Hb.
  - destruct (decide (ExtendBlobCommand.FirstTractKey cmd = len (pb.Tracts blob)))
      as [Hk|Hk].
    + destruct (decide (Exists (λ h, len h ≠ pb.GetRepl blob)
                          (ExtendBlobCommand.Hosts cmd))) as [Hh|Hh].
      * left. exists core.ErrInvalidArgument.
        split; [done|]. by eapply ExtendBlob_bad_hosts.
      * right. exists blob.
        assert (Forall (λ h, len h = pb.GetRepl blob) (ExtendBlobCommand.Hosts cmd)).
        { apply Forall_forall. intros h Hin.
          destruct (decide (len h = pb.GetRepl blob)) as [|Hne]; [done|].
          destruct Hh. apply Exists_exists. eauto. }
        split_and!; [done..|]. by apply ExtendBlob_accepted.
    + left. exists core.ErrExtendConflict.
      split; [done|]. by eapply ExtendBlob_conflict.
  - left. exists core.ErrNoSuchBlob. split; [done|]. by apply ExtendBlob_no_blob.
Qed.

(** ChangeTract refuses, with the transaction as it was, or panics, or
    writes the blob with the one tract changed. *)
Lemma ChangeTract_inv cmd txn :
  (∃ e, e ≠ core.NoError
        ∧ ChangeTractCommand.apply cmd txn = ChangeTractCommand.fail txn e)
  ∨ ChangeTractCommand.apply cmd txn = Panic txn
  ∨ (∃ blob tract,
       state.GetBlob (core.Blob (ChangeTractCommand.ID cmd)) txn = Some blob
       ∧ index (pb.Tracts blob) (core.Index (ChangeTractCommand.ID cmd))
         = Some tract
       ∧ len (pb.Hosts tract) = len (ChangeTractCommand.NewHosts cmd)
       ∧ wrap VersionBits (pb.Version tract + 1) = ChangeTractCommand.NewVersion cmd
       ∧ ChangeTractCommand.apply cmd txn
         = Done (state.PutBlob (core.Blob (ChangeTractCommand.ID cmd))
                   (changed_blob cmd blob tract) txn)
                {| ChangeTractResult.Err := core.NoError;
                   ChangeTractResult.Info :=
                     {| core.Tract := ChangeTractCommand.ID cmd;
                        core.Version := pb.Version (changed_tract cmd tract);
                        core.TSIDs := pb.Hosts (changed_tract cmd tract) |} |}).
Proof.
  destruct (state.GetBlob (core.Blob (ChangeTractCommand.ID cmd)) txn)
    as [blob|] eqn:Hb.
  2:{ left. exists core.ErrNoSuchBlob. split; [done|].
      unfold ChangeTractCommand.apply. by rewrite Hb. }
  destruct (index (pb.Tracts blob) (core.Index (ChangeTractCommand.ID cmd)))
    as [tract|] eqn:Hi.
  - rewrite (ChangeTract_found cmd txn blob tract Hb Hi).
    case_bool_decide as Hlen.
    { left. by exists core.ErrInvalidArgument. }
    case_bool_decide as Hver.
    { left. by exists core.ErrConflictingState. }
    right. right. exists blob, tract. split_and!; done.
  - destruct (decide (core.Index (ChangeTractCommand.ID cmd)
                      > len (pb.Tracts blob))) as [Hgt|Hle].
    + left. exists core.ErrNoSuchTract. split; [done|].
      by apply (ChangeTract_beyond_count _ _ blob).
    + right. left. unfold ChangeTractCommand.apply. rewrite Hb.
      rewrite bool_decide_eq_false_2 by done. by rewrite Hi.
Qed.

(** CreateBlob either finds no partition to allocate from, or picks the
    record of the least key among those whose next_blob_key is not the
    maximum, and then panics if that record has no next_blob_key or writes
    the partition and the blob. *)
Lemma CreateBlob_inv cmd txn :
  ((∀ k p, state.partitions (state.db txn) !! k = Some p →
           pb.GetNextBlobKey p = core.MaxBlobKey)
   ∧ CreateBlobCommand.apply cmd txn
     = Done txn {| CreateBlobResult.ID := zeroBlobID;
                   CreateBlobResult.Err := core.ErrGenBlobID |})
  ∨ (∃ k p,
       state.partitions (state.db txn) !! k = Some p
       ∧ pb.GetNextBlobKey p ≠ core.MaxBlobKey
       ∧ (∀ k' p', state.partitions (state.db txn) !! k' = Some p' →
                   pb.GetNextBlobKey p' ≠ core.MaxBlobKey → k ≤ k')
       ∧ match pb.NextBlobKey p with
         | None => CreateBlobCommand.apply cmd txn = Panic txn
         | Some next =>
             CreateBlobCommand.apply cmd txn
             = Done (state.PutBlob (pb.GetId p, next) (created_blob cmd)
                       (state.PutPartition
                          {| pb.Id := pb.Id p;
                             pb.NextBlobKey := Some (uint32 (next + 1));
                             pb.NextRsChunkKey := pb.NextRsChunkKey p |} txn))
                    {| CreateBlobResult.ID := (pb.GetId p, next);
                       CreateBlobResult.Err := core.NoError |}
         end).
Proof.
  unfold CreateBlobCommand.apply.
  destruct (list_find _ (state.GetPartitions txn)) as [[i p]|] eqn:Hf.
  - right. apply GetPartitions_find in Hf as (k & Hl & HP & Hmin).
    exists k, p. split_and!; [done..|]. by destruct (pb.NextBlobKey p).
  - left. rewrite GetPartitions_find_None in Hf. split; [|done].
    intros k p Hl. destruct (decide (pb.GetNextBlobKey p = core.MaxBlobKey));
      [done|]. by destruct (Hf k p Hl).
Qed.

(** AllocateRSChunkIDs either finds no partition with room, or picks the
    record of the least key among those with room, stores its new counter
    and then panics if the record has no id or returns the range start. *)
Lemma AllocateRSChunkIDs_inv `{!core.Decls} cmd txn :
  let room p := uint64 (pb.GetNextRsChunkKey p
                        + uint64 (AllocateRSChunkIDsCommand.N cmd))
                ≤ core.MaxRSChunkKey in
  ((∀ k p, state.partitions (state.db txn) !! k = Some p → ¬ room p)
   ∧ AllocateRSChunkIDsCommand.apply cmd txn
     = Done txn {| AllocateRSChunkIDsResult.ID := zeroRSChunkID;
                   AllocateRSChunkIDsResult.Err := core.ErrGenBlobID |})
  ∨ (∃ k p,
       state.partitions (state.db txn) !! k = Some p
       ∧ room p
       ∧ (∀ k' p', state.partitions (state.db txn) !! k' = Some p' →
                   room p' → k ≤ k')
       ∧ let start := if bool_decide (pb.GetNextRsChunkKey p = 0) then 1
                      else pb.GetNextRsChunkKey p in
         let txn' :=
           state.PutPartition
             {| pb.Id := pb.Id p; pb.NextBlobKey := pb.NextBlobKey p;
                pb.NextRsChunkKey :=
                  Some (uint64 (start + uint64 (AllocateRSChunkIDsCommand.N cmd))) |}
             txn in
         match pb.Id p with
         | None => AllocateRSChunkIDsCommand.apply cmd txn = Panic txn'
         | Some id =>
             AllocateRSChunkIDsCommand.apply cmd txn
             = Done txn'
                 {| AllocateRSChunkIDsResult.ID :=
                      {| core.Partition := rs_tagged id; core.ID := start |};
                    AllocateRSChunkIDsResult.Err := core.NoError |}
         end).
Proof.
  intros room. unfold AllocateRSChunkIDsCommand.apply.
  destruct (list_find _ (state.GetPartitions txn)) as [[i p]|] eqn:Hf.
  - right. apply GetPartitions_find in Hf as (k & Hl & HP & Hmin).
    exists k, p. split_and!; [done..|]. cbv zeta. by destruct (pb.Id p).
  - left. rewrite GetPartitions_find_None in Hf. by split.
Qed.

(** X5.  A handler that answers with an error has written nothing: when
    AddPartition, CreateBlob, ExtendBlob, ChangeTract or AllocateRSChunkIDs
    returns an error other than NoError, the transaction it returns is the
    one it was given. *)
Theorem handler_errors_write_nothing `{!core.Decls} (txn txn' : state.Txn) :
  (∀ cmd r, AddPartitionCommand.apply cmd txn = (txn', r) →
            apr_Err r ≠ core.NoError → txn' = txn)
  ∧ (∀ cmd r, CreateBlobCommand.apply cmd txn = Done txn' r →
              CreateBlobResult.Err r ≠ core.NoError → txn' = txn)
  ∧ (∀ cmd r, ExtendBlobCommand.apply cmd txn = (txn', r) →
              ExtendBlobResult.Err r ≠ core.NoError → txn' = txn)
  ∧ (∀ cmd r, ChangeTractCommand.apply cmd txn = Done txn' r →
              ChangeTractResult.Err r ≠ core.NoError → txn' = txn)
  ∧ (∀ cmd r, AllocateRSChunkIDsCommand.apply cmd txn = Done txn' r →
              AllocateRSChunkIDsResult.Err r ≠ core.NoError → txn' = txn).
Proof.
  split_and!; intros cmd r Happ Herr.
  - unfold AddPartitionCommand.apply, addPartition in Happ.
    destruct (state.GetPartition _ txn); injection Happ as <- <-; done.
  - destruct (CreateBlob_inv cmd txn) as [[_ Hc]|(k & p & _ & _ & _ & Hc)].
    + rewrite Hc in Happ. by injection Happ as <- _.
    + destruct (pb.NextBlobKey p); rewrite Hc in Happ; [|done].
      injection Happ as _ <-. done.
  - destruct (ExtendBlob_inv cmd txn) as [(e & _ & Hc)|(blob & _ & _ & _ & Hc)];
      rewrite Hc in Happ; injection Happ as <- <-; done.
  - destruct (ChangeTract_inv cmd txn)
      as [(e & _ & Hc)|[Hc|(blob & tract & _ & _ & _ & _ & Hc)]];
      rewrite Hc in Happ; [|done|]; injection Happ as <- <-; done.
  - destruct (AllocateRSChunkIDs_inv cmd txn) as [[_ Hc]|(k & p & _ & _ & _ & Hc)].
    + rewrite Hc in Happ. by injection Happ as <- _.
    + cbv zeta in Hc. destruct (pb.Id p); rewrite Hc in Happ; [|done].
      injection Happ as _ <-. done.
Qed.

Lemma handler_errors_write_nothing_witness :
  (ExtendBlobCommand.apply
     {| ExtendBlobCommand.ID := (1, 1); ExtendBlobCommand.FirstTractKey := 0;
        ExtendBlobCommand.Hosts := [[7; 8; 9]] |} sample.txn).1
  = sample.txn.
Proof.
  destruct (@handler_errors_write_nothing sample.decls sample.txn
              (ExtendBlobCommand.apply
                 {| ExtendBlobCommand.ID := (1, 1);
                    ExtendBlobCommand.FirstTractKey := 0;
                    ExtendBlobCommand.Hosts := [[7; 8; 9]] |} sample.txn).1)
    as (_ & _ & H & _).
  eapply (H {| ExtendBlobCommand.ID := (1, 1);
               ExtendBlobCommand.FirstTractKey := 0;
               ExtendBlobCommand.Hosts := [[7; 8; 9]] |}
            {| ExtendBlobResult.Err := core.ErrExtendConflict;
               ExtendBlobResult.NewSize := 0 |});
    [reflexivity|discriminate].
Defined.

(** ** What an accepted ChangeTract or ExtendBlob changes *)

Lemma index_insert_ne {A} (s : list A) (i j : Z) (x : A) :
  0 ≤ i → j ≠ i → index (<[Z.to_nat i := x]> s) j = index s j.
Proof.
  intros Hi Hne. unfold index. case_bool_decide; [done|].
  apply list_lookup_insert_ne. lia.
Qed.

Lemma set_Tracts_back blob ts :
  pb.set_Tracts (pb.set_Tracts blob ts) (pb.Tracts blob) = blob.
Proof. by destruct blob. Qed.

Lemma GetBlobAll_PutBlob_ne id id' b txn :
  id' ≠ id →
  state.GetBlobAll id' (state.PutBlob id b txn) = state.GetBlobAll id' txn.
Proof. intros Hne. unfold state.GetBlobAll. simpl. by apply lookup_insert_ne. Qed.

(** X6.  When ChangeTract succeeds, the tract at the index of the command
    is stored with the hosts and the version of the command, and the
    TractInfo it returns reports them; the blob has as many tracts as before,
    every other tract and every other field of the blob is as before, and so
    are all other blobs and the partition bucket. *)
Theorem ChangeTract_changes_one_tract (cmd : ChangeTractCommand.t)
    (txn txn' : state.Txn) (r : ChangeTractResult.t) :
  let id := core.Blob (ChangeTractCommand.ID cmd) in
  let i := core.Index (ChangeTractCommand.ID cmd) in
  ChangeTractCommand.apply cmd txn = Done txn' r →
  ChangeTractResult.Err r = core.NoError →
  ∃ blob blob',
    state.GetBlob id txn = Some blob
    ∧ state.GetBlob id txn' = Some blob'
    ∧ index (pb.Tracts blob') i
      = Some {| pb.Hosts := ChangeTractCommand.NewHosts cmd;
                pb.Version := ChangeTractCommand.NewVersion cmd |}
    ∧ ChangeTractResult.Info r
      = {| core.Tract := ChangeTractCommand.ID cmd;
           core.Version := ChangeTractCommand.NewVersion cmd;
           core.TSIDs := ChangeTractCommand.NewHosts cmd |}
    ∧ len (pb.Tracts blob') = len (pb.Tracts blob)
    ∧ (∀ j, j ≠ i → index (pb.Tracts blob') j = index (pb.Tracts blob) j)
    ∧ pb.set_Tracts blob' (pb.Tracts blob) = blob
    ∧ (∀ id', id' ≠ id → state.GetBlobAll id' txn' = state.GetBlobAll id' txn)
    ∧ state.partitions (state.db txn') = state.partitions (state.db txn).
Proof.
  intros id i Happ Herr.
  destruct (ChangeTract_inv cmd txn)
    as [(e & He & Hc)|[Hc|(blob & tract & Hb & Hi & Hlen & Hver & Hc)]];
    rewrite Hc in Happ; [|done|].
  { injection Happ as _ <-. simpl in Herr. congruence. }
  injection Happ as <- <-.
  pose proof (proj1 (index_Some _ _ _) Hi) as [Hi0 Hl].
  exists blob, (changed_blob cmd blob tract).
  unfold changed_blob, changed_tract. rewrite Hver. split_and!.
  - done.
  - apply GetBlob_PutBlob. apply GetBlob_Some in Hb as [_ ?]. done.
  - apply index_Some. split; [done|]. simpl.
    apply list_lookup_insert_eq. by eapply lookup_lt_Some.
  - done.
  - unfold len. simpl. by rewrite length_insert.
  - intros j Hj. simpl. by apply index_insert_ne.
  - apply set_Tracts_back.
  - intros id' Hne. by apply GetBlobAll_PutBlob_ne.
  - done.
Qed.

Lemma ChangeTract_changes_one_tract_witness :
  ∃ blob',
    state.GetBlob (1, 1)
      (state.PutBlob (1, 1)
         (sample.blob None [ {| pb.Hosts := [7; 8; 9]; pb.Version := 2 |} ])
         sample.txn)
    = Some blob'
    ∧ index (pb.Tracts blob') 0
      = Some {| pb.Hosts := [7; 8; 9]; pb.Version := 2 |}.
Proof.
  destruct (ChangeTract_changes_one_tract
              {| ChangeTractCommand.ID := {| core.Blob := (1, 1); core.Index := 0 |};
                 ChangeTractCommand.NewHosts := [7; 8; 9];
                 ChangeTractCommand.NewVersion := 2 |}
              sample.txn
              (state.PutBlob (1, 1)
                 (sample.blob None [ {| pb.Hosts := [7; 8; 9]; pb.Version := 2 |} ])
                 sample.txn)
              {| ChangeTractResult.Err := core.NoError;
                 ChangeTractResult.Info :=
                   {| core.Tract := {| core.Blob := (1, 1); core.Index := 0 |};
                      core.Version := 2; core.TSIDs := [7; 8; 9] |} |})
    as (blob & blob' & _ & H1 & H2 & _); [reflexivity|reflexivity|].
  exists blob'. split; [exact H1|exact H2].
Defined.

(** X7.  When ExtendBlob succeeds, every tract the blob had is still at its
    index, unchanged; each tract from the old count on has version 1 and the
    hosts of the host vector at that offset in the command, as many as the
    replication factor; the size returned is the new tract count; every
    other field of the blob, all other blobs and the partition bucket are as
    before. *)
Theorem ExtendBlob_keeps_existing_tracts (cmd : ExtendBlobCommand.t)
    (txn txn' : state.Txn) (r : ExtendBlobResult.t) :
  let id := ExtendBlobCommand.ID cmd in
  ExtendBlobCommand.apply cmd txn = (txn', r) →
  ExtendBlobResult.Err r = core.NoError →
  ∃ blob blob',
    state.GetBlob id txn = Some blob
    ∧ state.GetBlob id txn' = Some blob'
    ∧ ExtendBlobResult.NewSize r = len (pb.Tracts blob')
    ∧ len (pb.Tracts blob')
      = len (pb.Tracts blob) + len (ExtendBlobCommand.Hosts cmd)
    ∧ (∀ j t, index (pb.Tracts blob) j = Some t →
              index (pb.Tracts blob') j = Some t)
    ∧ (∀ j hosts, index (ExtendBlobCommand.Hosts cmd) j = Some hosts →
                  index (pb.Tracts blob') (len (pb.Tracts blob) + j)
                  = Some {| pb.Hosts := hosts; pb.Version := 1 |}
                  ∧ len hosts = pb.GetRepl blob')
    ∧ pb.set_Tracts blob' (pb.Tracts blob) = blob
    ∧ (∀ id', id' ≠ id → state.GetBlobAll id' txn' = state.GetBlobAll id' txn)
    ∧ state.partitions (state.db txn') = state.partitions (state.db txn).
Proof.
  intros id Happ Herr.
  destruct (ExtendBlob_inv cmd txn) as [(e & He & Hc)|(blob & Hb & Hk & Hh & Hc)];
    rewrite Hc in Happ.
  { injection Happ as _ <-. simpl in Herr. congruence. }
  injection Happ as <- <-.
  exists blob, (extended blob (ExtendBlobCommand.Hosts cmd)).
  assert (Hlen : len (pb.Tracts (extended blob (ExtendBlobCommand.Hosts cmd)))
                 = len (pb.Tracts blob) + len (ExtendBlobCommand.Hosts cmd)).
  { simpl. rewrite len_app. unfold len. by rewrite length_fmap. }
  split_and!.
  - done.
  - apply GetBlob_PutBlob. apply GetBlob_Some in Hb as [_ ?]. done.
  - simpl ExtendBlobResult.NewSize. by rewrite Hlen.
  - done.
  - intros j t [Hj Hl]%index_Some. apply index_Some. split; [done|].
    simpl. by apply lookup_app_l_Some.
  - intros j hosts [Hj Hl]%index_Some. split.
    + apply index_Some. split; [unfold len; lia|]. simpl.
      replace (Z.to_nat (len (pb.Tracts blob) + j))
        with (length (pb.Tracts blob) + Z.to_nat j)%nat by (unfold len; lia).
      rewrite lookup_app_r by lia.
      replace (length (pb.Tracts blob) + Z.to_nat j - length (pb.Tracts blob))%nat
        with (Z.to_nat j) by lia.
      rewrite list_lookup_fmap, Hl. done.
    + rewrite Forall_forall in Hh. apply Hh. by eapply list_elem_of_lookup_2.
  - apply set_Tracts_back.
  - intros id' Hne. by apply GetBlobAll_PutBlob_ne.
  - done.
Qed.

Lemma ExtendBlob_keeps_existing_tracts_witness :
  ∃ blob',
    state.GetBlob (1, 1)
      (ExtendBlobCommand.apply
         {| ExtendBlobCommand.ID := (1, 1); ExtendBlobCommand.FirstTractKey := 1;
            ExtendBlobCommand.Hosts := [[7; 8; 9]] |} sample.txn).1
    = Some blob'
    ∧ index (pb.Tracts blob') 0 = Some sample.tract0.
Proof.
  destruct (ExtendBlob_keeps_existing_tracts
              {| ExtendBlobCommand.ID := (1, 1); ExtendBlobCommand.FirstTractKey := 1;
                 ExtendBlobCommand.Hosts := [[7; 8; 9]] |}
              sample.txn
              (ExtendBlobCommand.apply
                 {| ExtendBlobCommand.ID := (1, 1);
                    ExtendBlobCommand.FirstTractKey := 1;
                    ExtendBlobCommand.Hosts := [[7; 8; 9]] |} sample.txn).1
              {| ExtendBlobResult.Err := core.NoError;
                 ExtendBlobResult.NewSize := 2 |})
    as (blob & blob' & Hb & H1 & _ & _ & H2 & _); [reflexivity|reflexivity|].
  exists blob'. split; [exact H1|]. apply H2.
  injection Hb as <-. reflexivity.
Defined.

(** ** Invariants of the store that the handlers keep *)

Lemma same_but_partitions_blobs t1 t2 :
  same_but_partitions t1 t2 →
  state.blobs (state.db t2) = state.blobs (state.db t1).
Proof. unfold same_but_partitions. by intros ->. Qed.

Lemma AddPartition_apply_fst c txn :
  (AddPartitionCommand.apply c txn).1 = (addPartition (AddPartitionCommand.ID c) txn).1.
Proof. unfold AddPartitionCommand.apply. by destruct (addPartition _ txn). Qed.

Lemma partitions_ok_ext s s' :
  state.partitions s' = state.partitions s → partitions_ok s → partitions_ok s'.
Proof.
  intros Heq [Hid Hset]. split; intros k p; rewrite Heq; [apply Hid|apply Hset].
Qed.

Lemma sync_ok ids txn :
  partitions_ok (state.db txn) →
  partitions_ok (state.db (foldl (λ txn id, (addPartition id txn).1) txn ids)).
Proof.
  revert txn. induction ids as [|id ids IH]; intros txn Hok; simpl; [done|].
  apply IH. by apply addPartition_ok.
Qed.

Lemma SetRegistration_buckets `{!core.Decls} c txn :
  state.partitions (state.db (SetRegistrationCommand.apply c txn).1)
  = state.partitions (state.db txn)
  ∧ state.blobs (state.db (SetRegistrationCommand.apply c txn).1)
    = state.blobs (state.db txn).
Proof. unfold SetRegistrationCommand.apply. simpl. by destruct (negb _). Qed.

Lemma hosts_match_repl_ext s s' :
  state.blobs s' = state.blobs s → hosts_match_repl s → hosts_match_repl s'.
Proof. intros Heq Hm id b. rewrite Heq. apply Hm. Qed.

Lemma hosts_match_repl_insert s s' id b :
  state.blobs s' = <[id := b]> (state.blobs s) →
  Forall (λ t, len (pb.Hosts t) = pb.GetRepl b) (pb.Tracts b) →
  hosts_match_repl s → hosts_match_repl s'.
Proof.
  intros Heq Hb Hm id' b'. rewrite Heq.
  intros [[<- <-]|[_ Hl]]%lookup_insert_Some; [done|]. by eapply Hm.
Qed.

Section Invariants.
Context `{!core.Decls, !state.Layer}.

(** X8.  The handlers written out here keep the partition bucket in shape:
    if every record carries the id it is stored under and a 32-bit
    next_blob_key before SetRegistration, AddPartition, SyncPartitions,
    CreateBlob, ExtendBlob, ChangeTract or AllocateRSChunkIDs, then so it is in
    what the call leaves. *)
Theorem handlers_keep_partitions_ok (cmd : Command) (txn : state.Txn) :
  handled_here cmd = true →
  partitions_ok (state.db txn) →
  leaves (dispatch cmd txn) partitions_ok.
Proof.
  intros Hcmd Hok. destruct cmd; try discriminate Hcmd; cbn [dispatch].
  - unfold returns, leaves. cbn [fst].
    eapply partitions_ok_ext; [apply SetRegistration_buckets|done].
  - unfold returns, leaves. cbn [fst].
    rewrite AddPartition_apply_fst. by apply addPartition_ok.
  - unfold returns, leaves. cbn [fst]. by apply sync_ok.
  - pose proof (CreateBlob_ok c txn Hok) as Hc.
    by destruct (CreateBlobCommand.apply c txn).
  - destruct (ExtendBlob_inv c txn) as [(e & _ & Hc)|(blob & _ & _ & _ & Hc)];
      rewrite Hc; [done|]. by eapply partitions_ok_ext.
  - destruct (ChangeTract_inv c txn)
      as [(e & _ & Hc)|[Hc|(blob & tract & _ & _ & _ & _ & Hc)]];
      rewrite Hc; [done|done|]. by eapply partitions_ok_ext.
  - pose proof (AllocateRSChunkIDs_ok c txn Hok) as Hc.
    by destruct (AllocateRSChunkIDsCommand.apply c txn).
Qed.

(** X9.  The handlers written out here keep the replication invariant: if
    every tract of every stored blob has as many hosts as the replication
    factor of its blob before one of them runs, then so it is in what the call
    leaves.  ExtendBlob keeps it by its check of the host vectors,
    ChangeTract by its check that the number of hosts stays. *)
Theorem handlers_keep_hosts_match_repl (cmd : Command) (txn : state.Txn) :
  handled_here cmd = true →
  hosts_match_repl (state.db txn) →
  leaves (dispatch cmd txn) hosts_match_repl.
Proof.
  intros Hcmd Hm. destruct cmd; try discriminate Hcmd; cbn [dispatch].
  - unfold returns, leaves. cbn [fst].
    eapply hosts_match_repl_ext; [apply SetRegistration_buckets|done].
  - unfold returns, leaves. cbn [fst]. rewrite AddPartition_apply_fst.
    eapply hosts_match_repl_ext; [|done].
    apply same_but_partitions_blobs, addPartition_same_but_partitions.
  - unfold returns, leaves. cbn [fst].
    eapply hosts_match_repl_ext; [|done].
    apply same_but_partitions_blobs, sync_same_but_partitions.
  - destruct (CreateBlob_inv c txn) as [[_ Hc]|(k & p & _ & _ & _ & Hc)].
    + by rewrite Hc.
    + destruct (pb.NextBlobKey p); rewrite Hc; [|done]. simpl.
      eapply hosts_match_repl_insert; [done| |done]. constructor.
  - destruct (ExtendBlob_inv c txn) as [(e & _ & Hc)|(blob & Hb & _ & Hh & Hc)];
      rewrite Hc; [done|]. simpl.
    eapply hosts_match_repl_insert; [done| |done].
    simpl. apply Forall_app. split.
    + apply GetBlob_Some in Hb as [Hb _]. by apply (Hm _ _ Hb).
    + apply Forall_fmap. by eapply Forall_impl; [exact Hh|].
  - destruct (ChangeTract_inv c txn)
      as [(e & _ & Hc)|[Hc|(blob & tract & Hb & Hi & Hlen & _ & Hc)]];
      rewrite Hc; [done|done|]. simpl.
    eapply hosts_match_repl_insert; [done| |done].
    apply GetBlob_Some in Hb as [Hb _]. pose proof (Hm _ _ Hb) as Hall.
    simpl. apply Forall_insert; [done|]. simpl.
    rewrite Forall_forall in Hall. rewrite <- Hlen. apply Hall.
    apply index_Some in Hi as [_ Hi]. by eapply list_elem_of_lookup_2.
  - destruct (AllocateRSChunkIDs_inv c txn) as [[_ Hc]|(k & p & _ & _ & _ & Hc)].
    + by rewrite Hc.
    + cbv zeta in Hc. destruct (pb.Id p); rewrite Hc; simpl;
        by eapply hosts_match_repl_ext.
Qed.

End Invariants.

Lemma sample_partitions_ok : partitions_ok sample.store.
Proof. split; [apply sample_keyed_by_id|apply sample_blob_keys_set]. Qed.

Lemma handlers_keep_partitions_ok_witness :
  leaves (@dispatch sample.decls sample.layer sample.create sample.txn)
         partitions_ok.
Proof.
  apply (@handlers_keep_partitions_ok sample.decls sample.layer);
    [reflexivity|apply sample_partitions_ok].
Defined.

(** One goal per record of the blob bucket of the sample store. *)
Ltac each_sample_blob :=
  let H := fresh in
  simpl;
  intros [[<- <-]|[_ [[<- <-]|[_ [[<- <-]|[_ H]]%lookup_insert_Some]]%lookup_insert_Some]]%lookup_insert_Some;
  [| | |by rewrite lookup_empty in H].

Lemma sample_hosts_match_repl : hosts_match_repl sample.store.
Proof. intros id b. each_sample_blob; repeat constructor. Qed.

Lemma handlers_keep_hosts_match_repl_witness :
  leaves (@dispatch sample.decls sample.layer
            (ExtendBlob {| ExtendBlobCommand.ID := (1, 1);
                           ExtendBlobCommand.FirstTractKey := 1;
                           ExtendBlobCommand.Hosts := [[7; 8; 9]] |})
            sample.txn)
         hosts_match_repl.
Proof.
  apply (@handlers_keep_hosts_match_repl sample.decls sample.layer);
    [reflexivity|apply sample_hosts_match_repl].
Defined.

(** *** Blob keys and the counters of the partitions *)


(** On a partition bucket in shape, a CreateBlob that returns has either
    found every partition full or written the partition and the blob. *)
Lemma CreateBlob_done cmd txn txn' r :
  partitions_ok (state.db txn) →
  CreateBlobCommand.apply cmd txn = Done txn' r →
  CreateBlobResult.Err r = core.NoError →
  ∃ k p next,
    state.partitions (state.db txn) !! k = Some p
    ∧ pb.NextBlobKey p = Some next
    ∧ 0 ≤ next ∧ next + 1 < 2 ^ 32
    ∧ (∀ k' p', state.partitions (state.db txn) !! k' = Some p' →
                pb.GetNextBlobKey p' ≠ core.MaxBlobKey → k ≤ k')
    ∧ r = {| CreateBlobResult.ID := (k, next);
             CreateBlobResult.Err := core.NoError |}
    ∧ txn' = state.PutBlob (k, next) (created_blob cmd)
               (state.PutPartition
                  {| pb.Id := Some k; pb.NextBlobKey := Some (next + 1);
                     pb.NextRsChunkKey := pb.NextRsChunkKey p |} txn).
Proof.
  intros [Hid Hset] Happ Herr.
  destruct (CreateBlob_inv cmd txn) as [[_ Hc]|(k & p & Hl & HP & Hmin & Hc)].
  { rewrite Hc in Happ. injection Happ as _ <-. discriminate Herr. }
  destruct (Hset k p Hl) as (next & Hn & Hr). rewrite Hn in Hc.
  rewrite Hc in Happ. injection Happ as <- <-.
  pose proof (Hid k p Hl) as Hk.
  assert (pb.GetId p = k) as Hg by (unfold pb.GetId; by rewrite Hk).
  assert (next + 1 < 2 ^ 32) as Hlt.
  { unfold pb.GetNextBlobKey, core.MaxBlobKey, is_uint32 in *.
    rewrite Hn in HP. simpl in HP. lia. }
  unfold is_uint32 in Hr.
  exists k, p, next. rewrite Hg, Hk. unfold uint32.
  rewrite wrap_small by lia. split_and!; (done || lia).
Qed.

(** On a partition bucket whose records carry their ids and whose counters
    do not overflow, an AllocateRSChunkIDs that returns has either found no
    partition with room or written the new counter. *)
Lemma AllocateRSChunkIDs_done `{!core.Decls} cmd txn txn' r :
  let n := AllocateRSChunkIDsCommand.N cmd in
  keyed_by_id (state.db txn) →
  rs_keys_in_range n (state.db txn) →
  AllocateRSChunkIDsCommand.apply cmd txn = Done txn' r →
  AllocateRSChunkIDsResult.Err r = core.NoError →
  ∃ k p,
    state.partitions (state.db txn) !! k = Some p
    ∧ fits n p
    ∧ let start := if bool_decide (pb.GetNextRsChunkKey p = 0) then 1
                   else pb.GetNextRsChunkKey p in
      r = {| AllocateRSChunkIDsResult.ID :=
               {| core.Partition := rs_tagged k; core.ID := start |};
             AllocateRSChunkIDsResult.Err := core.NoError |}
      ∧ txn' = state.PutPartition
                 {| pb.Id := Some k; pb.NextBlobKey := pb.NextBlobKey p;
                    pb.NextRsChunkKey := Some (start + n) |} txn.
Proof.
  intros n Hid Hrange Happ Herr.
  destruct (AllocateRSChunkIDs_inv cmd txn) as [[_ Hc]|(k & p & Hl & HP & _ & Hc)].
  { rewrite Hc in Happ. injection Happ as _ <-. discriminate Herr. }
  cbv zeta in Hc. rewrite (Hid k p Hl) in Hc. rewrite Hc in Happ.
  injection Happ as <- <-. fold n in HP |- *.
  exists k, p. split; [done|]. split; [by eapply fits_iff|].
  cbv zeta. destruct Hrange as [Hn Hr]. destruct (Hr k p Hl) as [H0 H1].
  set (start := if bool_decide (pb.GetNextRsChunkKey p = 0) then 1
                else pb.GetNextRsChunkKey p).
  assert (uint64 (start + uint64 n) = start + n) as ->; [|done].
  unfold uint64. rewrite (wrap_small 64 n) by lia.
  apply wrap_small. unfold start. case_bool_decide; lia.
Qed.

Lemma blob_counters_grow_same s s' :
  state.partitions s' = state.partitions s → blob_counters_grow s s'.
Proof. intros Heq k p next Hl Hn. rewrite Heq. exists p, next. by split_and!. Qed.

Lemma blob_counters_grow_put s k p p' next txn :
  s = state.db txn →
  state.partitions s !! k = Some p → pb.NextBlobKey p = Some next →
  pb.Id p' = Some k →
  (∃ next', pb.NextBlobKey p' = Some next' ∧ next ≤ next') →
  blob_counters_grow s (state.db (state.PutPartition p' txn)).
Proof.
  intros -> Hl Hn Hk (next' & Hn' & Hle) k0 p0 next0 Hl0 Hn0. simpl.
  assert (pb.GetId p' = k) as -> by (unfold pb.GetId; by rewrite Hk).
  destruct (decide (k0 = k)) as [->|Hne].
  - rewrite lookup_insert_eq. exists p', next'.
    rewrite Hl in Hl0. injection Hl0 as <-.
    rewrite Hn in Hn0. injection Hn0 as <-. by split_and!.
  - rewrite lookup_insert_ne by done. exists p0, next0. by split_and!.
Qed.

Lemma blob_keys_allocated_step s s' :
  blob_counters_grow s s' →
  (∀ id, is_Some (state.blobs s' !! id) → is_Some (state.blobs s !! id)) →
  blob_keys_allocated s → blob_keys_allocated s'.
Proof.
  intros Hgrow Hkeys Hinv p k b Hl.
  destruct (Hkeys (p, k)) as [b0 Hb0]; [by eexists|].
  destruct (Hinv p k b0 Hb0) as (part & next & Hp & Hn & Hlt).
  destruct (Hgrow p part next Hp Hn) as (part' & next' & Hp' & Hn' & Hle).
  exists part', next'. split_and!; [done|done|lia].
Qed.

Lemma CreateBlob_fresh cmd txn txn' r :
  partitions_ok (state.db txn) →
  blob_keys_allocated (state.db txn) →
  CreateBlobCommand.apply cmd txn = Done txn' r →
  CreateBlobResult.Err r = core.NoError →
  state.GetBlobAll (CreateBlobResult.ID r) txn = None
  ∧ state.GetBlob (CreateBlobResult.ID r) txn' = Some (created_blob cmd).
Proof.
  intros Hok Hinv Happ Herr.
  destruct (CreateBlob_done cmd txn txn' r Hok Happ Herr)
    as (k & p & next & Hl & Hn & _ & _ & _ & -> & ->).
  simpl. split; [|by apply GetBlob_PutBlob].
  unfold state.GetBlobAll.
  destruct (state.blobs (state.db txn) !! (k, next)) as [b|] eqn:Hb; [|done].
  destruct (Hinv k next b Hb) as (part & next0 & Hp & Hn0 & Hlt).
  pose proof (eq_trans (eq_sym Hp) Hl) as [= ->].
  rewrite Hn in Hn0. injection Hn0 as <-. lia.
Qed.

Lemma CreateBlob_keeps_blob_keys_allocated cmd txn txn' r :
  partitions_ok (state.db txn) →
  blob_keys_allocated (state.db txn) →
  CreateBlobCommand.apply cmd txn = Done txn' r →
  blob_keys_allocated (state.db txn').
Proof.
  intros Hok Hinv Happ.
  destruct (decide (CreateBlobResult.Err r = core.NoError)) as [Herr|Herr].
  2:{ destruct (CreateBlob_inv cmd txn) as [[_ Hc]|(k & p & _ & _ & _ & Hc)].
      - rewrite Hc in Happ. by injection Happ as <- _.
      - destruct (pb.NextBlobKey p); rewrite Hc in Happ; [|done].
        injection Happ as _ <-. done. }
  destruct (CreateBlob_done cmd txn txn' r Hok Happ Herr)
    as (k & p & next & Hl & Hn & _ & _ & _ & _ & ->).
  set (p' := {| pb.Id := Some k; pb.NextBlobKey := Some (next + 1);
                pb.NextRsChunkKey := pb.NextRsChunkKey p |}).
  assert (Hgrow : blob_counters_grow (state.db txn)
                    (state.db (state.PutPartition p' txn))).
  { eapply (blob_counters_grow_put _ k p p' next); [done..|].
    exists (next + 1). split; [done|lia]. }
  intros p0 k0 b. simpl.
  intros [[[= <- <-] <-]|[_ Hb]]%lookup_insert_Some.
  - exists p', (next + 1). split_and!; [apply lookup_insert_eq|done|lia].
  - destruct (Hinv p0 k0 b Hb) as (part & next0 & Hp & Hn0 & Hlt).
    destruct (Hgrow p0 part next0 Hp Hn0) as (part' & next' & Hp' & Hn' & Hle).
    exists part', next'. split_and!; [done|done|lia].
Qed.

(** X10.  On a store whose partition bucket is in shape and whose blobs all
    have keys below the next_blob_key of their partition, a CreateBlob that
    succeeds returns an id under which no blob was stored, soft-deleted
    ones included, and stores the new blob under it; and a CreateBlob that
    follows it returns another id. *)
Theorem CreateBlob_returns_fresh_id (cmd : CreateBlobCommand.t)
    (txn txn' : state.Txn) (r : CreateBlobResult.t) :
  partitions_ok (state.db txn) →
  blob_keys_allocated (state.db txn) →
  CreateBlobCommand.apply cmd txn = Done txn' r →
  CreateBlobResult.Err r = core.NoError →
  state.GetBlobAll (CreateBlobResult.ID r) txn = None
  ∧ state.GetBlob (CreateBlobResult.ID r) txn' = Some (created_blob cmd)
  ∧ ∀ cmd2 txn2 r2,
      CreateBlobCommand.apply cmd2 txn' = Done txn2 r2 →
      CreateBlobResult.Err r2 = core.NoError →
      CreateBlobResult.ID r2 ≠ CreateBlobResult.ID r.
Proof.
  intros Hok Hinv Happ Herr.
  destruct (CreateBlob_fresh cmd txn txn' r Hok Hinv Happ Herr) as [Hnew Hput].
  split_and!; [done..|].
  intros cmd2 txn2 r2 Happ2 Herr2 Heq.
  assert (Hok' : partitions_ok (state.db txn')).
  { pose proof (CreateBlob_ok cmd txn Hok) as Hc. by rewrite Happ in Hc. }
  pose proof (CreateBlob_keeps_blob_keys_allocated cmd txn txn' r Hok Hinv Happ)
    as Hinv'.
  destruct (CreateBlob_fresh cmd2 txn' txn2 r2 Hok' Hinv' Happ2 Herr2) as [Hnone _].
  rewrite Heq in Hnone. apply GetBlob_Some in Hput as [Hput _].
  unfold state.GetBlobAll in Hnone. congruence.
Qed.

Lemma sample_blob_keys_allocated : blob_keys_allocated sample.store.
Proof.
  intros p k b. simpl.
  intros [[[= <- <-] <-]|[_ [[[= <- <-] <-]|[_ [[[= <- <-] <-]|[_ Hl]]
    %lookup_insert_Some]]%lookup_insert_Some]]%lookup_insert_Some;
    [| | |by rewrite lookup_empty in Hl];
    (eexists _, _; split_and!; [reflexivity|reflexivity|reflexivity]).
Qed.

Lemma CreateBlob_returns_fresh_id_witness :
  ∃ txn',
    CreateBlobCommand.apply
      {| CreateBlobCommand.Repl := 3; CreateBlobCommand.Hint := 0;
         CreateBlobCommand.InitialTime := 100; CreateBlobCommand.Expires := 0 |}
      sample.txn
    = Done txn' {| CreateBlobResult.ID := (3, 1);
                   CreateBlobResult.Err := core.NoError |}
    ∧ state.GetBlobAll (3, 1) sample.txn = None.
Proof.
  eexists. split; [vm_compute; reflexivity|].
  eapply (CreateBlob_returns_fresh_id
            {| CreateBlobCommand.Repl := 3; CreateBlobCommand.Hint := 0;
               CreateBlobCommand.InitialTime := 100;
               CreateBlobCommand.Expires := 0 |}
            sample.txn _
            {| CreateBlobResult.ID := (3, 1);
               CreateBlobResult.Err := core.NoError |});
    [apply sample_partitions_ok|apply sample_blob_keys_allocated
    |vm_compute; reflexivity|reflexivity].
Defined.

Lemma partitions_lookup_addPartition id txn k p :
  is_uint32 id →
  state.partitions (state.db txn) !! k = Some p →
  state.partitions (state.db (addPartition id txn).1) !! k = Some p.
Proof.
  intros Hid Hl. pose proof (addPartition_lookup id txn k Hid) as Ha.
  assert (state.GetPartition k txn = Some p) as Hg by exact Hl.
  rewrite Hg in Ha. exact Ha.
Qed.

Lemma partitions_lookup_sync ids txn k p :
  Forall is_uint32 ids →
  state.partitions (state.db txn) !! k = Some p →
  state.partitions
    (state.db (foldl (λ txn id, (addPartition id txn).1) txn ids)) !! k = Some p.
Proof.
  intros Hids Hl. pose proof (sync_lookup ids txn k Hids) as Ha.
  assert (state.GetPartition k txn = Some p) as Hg by exact Hl.
  rewrite Hg in Ha. exact Ha.
Qed.

Lemma counters_grow_same s s' :
  state.partitions s' = state.partitions s → counters_grow s s'.
Proof. intros Heq k p Hl. rewrite Heq. exists p. by split_and!. Qed.

Lemma counters_grow_put k p p' txn :
  state.partitions (state.db txn) !! k = Some p →
  pb.Id p' = Some k →
  pb.GetNextBlobKey p ≤ pb.GetNextBlobKey p' →
  pb.GetNextRsChunkKey p ≤ pb.GetNextRsChunkKey p' →
  counters_grow (state.db txn) (state.db (state.PutPartition p' txn)).
Proof.
  intros Hl Hk Hb Hr k0 p0 Hl0. simpl.
  assert (pb.GetId p' = k) as -> by (unfold pb.GetId; by rewrite Hk).
  destruct (decide (k0 = k)) as [->|Hne].
  - rewrite lookup_insert_eq. exists p'.
    pose proof (eq_trans (eq_sym Hl0) Hl) as [= ->]. by split_and!.
  - rewrite lookup_insert_ne by done. exists p0. by split_and!.
Qed.

Lemma counters_grow_blob_counters s s' :
  counters_grow s s' → blob_keys_set s' → blob_counters_grow s s'.
Proof.
  intros Hg Hset k p next Hl Hn.
  destruct (Hg k p Hl) as (p' & Hl' & Hb & _).
  destruct (Hset k p' Hl') as (next' & Hn' & _).
  exists p', next'. unfold pb.GetNextBlobKey in Hb. rewrite Hn, Hn' in Hb.
  by split_and!.
Qed.

Section Counters.
Context `{!core.Decls, !state.Layer}.

(** X11.  The handlers written out here never remove a partition and never
    lower a counter: on a partition bucket in shape (and, for
    AllocateRSChunkIDs, counters that N does not overflow), every partition
    stored before the call is stored in what the call leaves, with a
    next_blob_key and a next_rs_chunk_key that are not below the old ones. *)
Theorem handlers_never_lower_counters (cmd : Command) (txn : state.Txn) :
  handled_here cmd = true →
  ids_in_range cmd →
  partitions_ok (state.db txn) →
  sums_in_range cmd (state.db txn) →
  leaves (dispatch cmd txn) (counters_grow (state.db txn)).
Proof.
  intros Hcmd Hids Hok Hsum.
  destruct cmd; try discriminate Hcmd; cbn [dispatch].
  - unfold returns, leaves. cbn [fst].
    apply counters_grow_same, SetRegistration_buckets.
  - unfold returns, leaves. cbn [fst]. rewrite AddPartition_apply_fst.
    intros k p Hl. exists p. split_and!; [|done..].
    by apply partitions_lookup_addPartition.
  - unfold returns, leaves. cbn [fst].
    intros k p Hl. exists p. split_and!; [|done..].
    by apply partitions_lookup_sync.
  - destruct (CreateBlobCommand.apply c txn) as [txn' r| |] eqn:Happ;
      cbn [returned leaves]; [| |done].
    + destruct (decide (CreateBlobResult.Err r = core.NoError)) as [Herr|Herr].
      * destruct (CreateBlob_done c txn txn' r Hok Happ Herr)
          as (k & p & next & Hl & Hn & Hnext & _ & _ & _ & ->).
        simpl. eapply (counters_grow_put k p); [done|done| |done].
        unfold pb.GetNextBlobKey. rewrite Hn. simpl. lia.
      * destruct (CreateBlob_inv c txn) as [[_ Hc]|(k & p & _ & _ & _ & Hc)].
        -- rewrite Hc in Happ. injection Happ as <- _.
           by apply counters_grow_same.
        -- destruct (pb.NextBlobKey p); rewrite Hc in Happ; [|done].
           injection Happ as _ <-. done.
    + destruct (CreateBlob_inv c txn) as [[_ Hc]|(k & p & _ & _ & _ & Hc)].
      * by rewrite Hc in Happ.
      * destruct (pb.NextBlobKey p); rewrite Hc in Happ; [done|].
        injection Happ as <-. by apply counters_grow_same.
  - destruct (ExtendBlob_inv c txn) as [(e & _ & Hc)|(blob & _ & _ & _ & Hc)];
      rewrite Hc; by apply counters_grow_same.
  - destruct (ChangeTract_inv c txn)
      as [(e & _ & Hc)|[Hc|(blob & tract & _ & _ & _ & _ & Hc)]];
      rewrite Hc; by apply counters_grow_same.
  - destruct Hok as [Hid Hset]. simpl in Hsum.
    destruct (AllocateRSChunkIDsCommand.apply c txn) as [txn' r| |] eqn:Happ;
      cbn [returned leaves]; [| |done].
    + destruct (decide (AllocateRSChunkIDsResult.Err r = core.NoError))
        as [Herr|Herr].
      * destruct (AllocateRSChunkIDs_done c txn txn' r Hid Hsum Happ Herr)
          as (k & p & Hl & _ & _ & ->).
        eapply (counters_grow_put k p); [done|done|done|].
        destruct Hsum as [Hn Hr]. destruct (Hr k p Hl) as [Hold _].
        unfold pb.GetNextRsChunkKey at 2. simpl. case_bool_decide; lia.
      * destruct (AllocateRSChunkIDs_inv c txn)
          as [[_ Hc]|(k & p & _ & _ & _ & Hc)].
        -- rewrite Hc in Happ. injection Happ as <- _.
           by apply counters_grow_same.
        -- cbv zeta in Hc. destruct (pb.Id p); rewrite Hc in Happ; [|done].
           injection Happ as _ <-. done.
    + destruct (AllocateRSChunkIDs_inv c txn)
        as [[_ Hc]|(k & p & Hl & _ & _ & Hc)].
      * by rewrite Hc in Happ.
      * cbv zeta in Hc. rewrite (Hid k p Hl) in Hc. by rewrite Hc in Happ.
Qed.

(** X12.  The handlers written out here keep every blob key allocated: on
    a partition bucket in shape, if every stored blob has a key below the
    next_blob_key of its partition before the call, then so it is in what the
    call leaves. *)
Theorem handlers_keep_blob_keys_allocated (cmd : Command) (txn : state.Txn) :
  handled_here cmd = true →
  ids_in_range cmd →
  partitions_ok (state.db txn) →
  blob_keys_allocated (state.db txn) →
  leaves (dispatch cmd txn) blob_keys_allocated.
Proof.
  intros Hcmd Hids Hok Hinv.
  assert (Hsame : ∀ txn', state.partitions (state.db txn')
                          = state.partitions (state.db txn) →
                          state.blobs (state.db txn') = state.blobs (state.db txn) →
                          blob_keys_allocated (state.db txn')).
  { intros txn' Hp Hb. eapply (blob_keys_allocated_step (state.db txn)); [|intros id|done].
    - by apply blob_counters_grow_same.
    - by rewrite Hb. }
  assert (Hput : ∀ id b b',
            state.GetBlob id txn = Some b →
            blob_keys_allocated (state.db (state.PutBlob id b' txn))).
  { intros id b b' [Hb _]%GetBlob_Some.
    eapply (blob_keys_allocated_step (state.db txn)); [|intros id'|done].
    - by apply blob_counters_grow_same.
    - simpl. rewrite lookup_insert_is_Some'. intros [<-|?]; [by eexists|done]. }
  destruct cmd; try discriminate Hcmd; cbn [dispatch].
  - unfold returns, leaves. cbn [fst].
    apply Hsame; apply SetRegistration_buckets.
  - unfold returns, leaves. cbn [fst]. rewrite AddPartition_apply_fst.
    eapply (blob_keys_allocated_step (state.db txn)); [|intros id|done].
    + intros k p next Hl Hn. exists p, next. split_and!; [|done..].
      by apply partitions_lookup_addPartition.
    + by rewrite (same_but_partitions_blobs _ _
                    (addPartition_same_but_partitions _ txn)).
  - unfold returns, leaves, SyncPartitionsCommand.apply. cbn [fst].
    eapply (blob_keys_allocated_step (state.db txn)); [|intros id|done].
    + intros k p next Hl Hn. exists p, next. split_and!; [|done..].
      by apply partitions_lookup_sync.
    + by rewrite (same_but_partitions_blobs _ _
                    (sync_same_but_partitions _ txn)).
  - destruct (CreateBlobCommand.apply c txn) as [txn' r| |] eqn:Happ;
      cbn [returned leaves]; [| |done].
    + by eapply CreateBlob_keeps_blob_keys_allocated.
    + destruct (CreateBlob_inv c txn) as [[_ Hc]|(k & p & _ & _ & _ & Hc)].
      * by rewrite Hc in Happ.
      * destruct (pb.NextBlobKey p); rewrite Hc in Happ; [done|].
        by injection Happ as <-.
  - destruct (ExtendBlob_inv c txn) as [(e & _ & Hc)|(blob & Hb & _ & _ & Hc)];
      rewrite Hc; [done|]. by eapply Hput.
  - destruct (ChangeTract_inv c txn)
      as [(e & _ & Hc)|[Hc|(blob & tract & Hb & _ & _ & _ & Hc)]];
      rewrite Hc; [done|done|]. by eapply Hput.
  - destruct Hok as [Hid Hset].
    destruct (AllocateRSChunkIDs_inv c txn)
      as [[_ Hc]|(k & p & Hl & _ & _ & Hc)]; [by rewrite Hc|].
    cbv zeta in Hc. rewrite (Hid k p Hl) in Hc. rewrite Hc.
    cbn [returned leaves].
    eapply (blob_keys_allocated_step (state.db txn)); [|by intros id|done].
    destruct (Hset k p Hl) as (next & Hn & _).
    eapply (blob_counters_grow_put _ k p _ next); [done..|].
    exists next. by split.
Qed.

End Counters.

Lemma handlers_never_lower_counters_witness :
  leaves (@dispatch sample.decls sample.layer
            (AllocateRSChunkIDs {| AllocateRSChunkIDsCommand.N := 5 |}) sample.txn)
         (counters_grow sample.store).
Proof.
  apply (@handlers_never_lower_counters sample.decls sample.layer
           (AllocateRSChunkIDs {| AllocateRSChunkIDsCommand.N := 5 |}) sample.txn);
    [reflexivity|exact I|apply sample_partitions_ok|apply sample_rs_keys_in_range].
Defined.

Lemma handlers_keep_blob_keys_allocated_witness :
  leaves (@dispatch sample.decls sample.layer sample.create sample.txn)
         blob_keys_allocated.
Proof.
  apply (@handlers_keep_blob_keys_allocated sample.decls sample.layer
           sample.create sample.txn);
    [reflexivity|exact I|apply sample_partitions_ok
    |apply sample_blob_keys_allocated].
Defined.

(** ** The range AllocateRSChunkIDs returns *)

(** X13.  On a partition bucket whose records carry their ids and whose
    counters N does not overflow, a successful AllocateRSChunkIDs(N) returns a
    range of N chunk keys that starts at 1 or above and at or above the old
    counter of the partition it picked, ends at or below MaxRSChunkKey, and
    lies below the counter the partition is stored with; the next_blob_key of
    the partition, the other partitions and the blob bucket are as
    before. *)
Theorem AllocateRSChunkIDs_range `{!core.Decls} (cmd : AllocateRSChunkIDsCommand.t)
    (txn txn' : state.Txn) (r : AllocateRSChunkIDsResult.t) :
  let n := AllocateRSChunkIDsCommand.N cmd in
  let start := core.ID (AllocateRSChunkIDsResult.ID r) in
  keyed_by_id (state.db txn) →
  rs_keys_in_range n (state.db txn) →
  AllocateRSChunkIDsCommand.apply cmd txn = Done txn' r →
  AllocateRSChunkIDsResult.Err r = core.NoError →
  1 ≤ start
  ∧ start + n - 1 ≤ core.MaxRSChunkKey
  ∧ ∃ k p p',
      core.Partition (AllocateRSChunkIDsResult.ID r) = rs_tagged k
      ∧ state.GetPartition k txn = Some p
      ∧ state.GetPartition k txn' = Some p'
      ∧ pb.GetNextRsChunkKey p ≤ start
      ∧ pb.GetNextRsChunkKey p' = start + n
      ∧ pb.NextBlobKey p' = pb.NextBlobKey p
      ∧ (∀ k', k' ≠ k → state.GetPartition k' txn' = state.GetPartition k' txn)
      ∧ state.blobs (state.db txn') = state.blobs (state.db txn).
Proof.
  intros n start Hid Hrange Happ Herr. unfold start.
  destruct (AllocateRSChunkIDs_done cmd txn txn' r Hid Hrange Happ Herr)
    as (k & p & Hl & Hfit & -> & ->).
  fold n in Hfit |- *. destruct Hrange as [Hn Hr].
  destruct (Hr k p Hl) as [Hold _]. unfold fits in Hfit. simpl.
  split_and!.
  - case_bool_decide; lia.
  - case_bool_decide; lia.
  - exists k, p. eexists. split_and!.
    + done.
    + exact Hl.
    + unfold state.GetPartition, pb.GetId. simpl. apply lookup_insert_eq.
    + case_bool_decide; lia.
    + done.
    + done.
    + intros k' Hne. unfold state.GetPartition, pb.GetId. simpl.
      by apply lookup_insert_ne.
    + done.
Qed.

Lemma AllocateRSChunkIDs_range_witness :
  ∃ txn' r,
    @AllocateRSChunkIDsCommand.apply sample.decls
      {| AllocateRSChunkIDsCommand.N := 5 |} sample.txn = Done txn' r
    ∧ 1 ≤ core.ID (AllocateRSChunkIDsResult.ID r)
    ∧ core.ID (AllocateRSChunkIDsResult.ID r) + 5 - 1 ≤ 2 ^ 48 - 1.
Proof.
  eexists _, _. split; [vm_compute; reflexivity|].
  destruct (@AllocateRSChunkIDs_range sample.decls
              {| AllocateRSChunkIDsCommand.N := 5 |} sample.txn _ _
              sample_keyed_by_id sample_rs_keys_in_range
              ltac:(vm_compute; reflexivity) eq_refl) as (H1 & H2 & _).
  split; [exact H1|exact H2].
Defined.

(** ** Further properties of Apply *)

Lemma ChangeTract_Panic_iff cmd txn txn' :
  0 ≤ core.Index (ChangeTractCommand.ID cmd) →
  ChangeTractCommand.apply cmd txn = Panic txn' ↔
  txn' = txn
  ∧ ∃ blob, state.GetBlob (core.Blob (ChangeTractCommand.ID cmd)) txn = Some blob
            ∧ core.Index (ChangeTractCommand.ID cmd) = len (pb.Tracts blob).
Proof.
  intros Hi0. split.
  - intros Happ.
    destruct (ChangeTract_inv cmd txn)
      as [(e & _ & Hc)|[Hc|(blob & tract & _ & _ & _ & _ & Hc)]];
      rewrite Hc in Happ; [done| |done].
    injection Happ as <-. split; [done|].
    unfold ChangeTractCommand.apply in Hc.
    destruct (state.GetBlob _ txn) as [blob|]; [|done].
    exists blob. split; [done|].
    case_bool_decide as Hgt; [done|].
    destruct (index _ _) eqn:Hidx.
    + by repeat case_bool_decide.
    + apply index_None in Hidx. lia.
  - intros [-> (blob & Hb & Hlen)]. by eapply ChangeTract_at_count_panics.
Qed.

Lemma CreateBlob_no_panic cmd txn txn' :
  partitions_ok (state.db txn) → CreateBlobCommand.apply cmd txn ≠ Panic txn'.
Proof.
  intros [_ Hset] Happ.
  destruct (CreateBlob_inv cmd txn) as [[_ Hc]|(k & p & Hl & _ & _ & Hc)].
  - by rewrite Hc in Happ.
  - destruct (Hset k p Hl) as (next & Hn & _). rewrite Hn in Hc.
    by rewrite Hc in Happ.
Qed.

Lemma AllocateRSChunkIDs_no_panic `{!core.Decls} cmd txn txn' :
  partitions_ok (state.db txn) →
  AllocateRSChunkIDsCommand.apply cmd txn ≠ Panic txn'.
Proof.
  intros [Hid _] Happ.
  destruct (AllocateRSChunkIDs_inv cmd txn) as [[_ Hc]|(k & p & Hl & _ & _ & Hc)].
  - by rewrite Hc in Happ.
  - cbv zeta in Hc. rewrite (Hid k p Hl) in Hc. by rewrite Hc in Happ.
Qed.

Section ApplyFurther.
Context `{!core.Decls, !state.Layer, !Decoder}.

(** X14.  After a Checksum entry at index k, which returns the checksum c
    and leaves the store as it was, a VerifyChecksum for index k passes when
    it carries c and is fatal when it carries another checksum; a
    VerifyChecksum for any other index is ignored. *)
Theorem Checksum_then_VerifyChecksum (h : StateHandler) (e1 : raft.Entry)
    (c1 : ChecksumCommand.t) :
  GetIndex h < raft.Index e1 →
  bytesToCmd (raft.Cmd e1) = Checksum c1 →
  ∃ h1 r1,
    Apply h e1 = Done h1 (OfChecksum r1)
    ∧ cr_Index r1 = raft.Index e1
    ∧ h_state h1 = h_state h
    ∧ ∀ e2 c2,
        GetIndex h < raft.Index e2 →
        bytesToCmd (raft.Cmd e2) = VerifyChecksum c2 →
        (VerifyChecksumCommand.Index c2 = raft.Index e1 →
         VerifyChecksumCommand.Checksum c2 = cr_Checksum r1 →
         Apply h1 e2 = Done h1 Nil)
        ∧ (VerifyChecksumCommand.Index c2 = raft.Index e1 →
           VerifyChecksumCommand.Checksum c2 ≠ cr_Checksum r1 →
           Apply h1 e2 = Fatal)
        ∧ (VerifyChecksumCommand.Index c2 ≠ raft.Index e1 →
           Apply h1 e2 = Done h1 Nil).
Proof.
  intros Hfresh Hcmd. rewrite (Apply_Checksum h e1 c1) by done.
  destruct (state.checksum_blobs _ _ _) as [cksum next].
  eexists _, _. split_and!; [done..|].
  intros e2 c2 Hfresh2 Hcmd2.
  rewrite (Apply_VerifyChecksum _ e2 c2) by done.
  rewrite verifyChecksum_cases. simpl.
  split_and!.
  - intros Hi Hc. rewrite bool_decide_eq_false_2; [done|].
    intros [_ Hne]. by destruct Hne.
  - intros Hi Hc. rewrite bool_decide_eq_true_2; [done|].
    split; [done|]. by intros Heq.
  - intros Hi. rewrite bool_decide_eq_false_2; [done|].
    intros [Heq _]. by destruct Hi.
Qed.

(** X15.  The cached checksum pair is written by Checksum entries only, and
    the store by the commit of a write transaction only: whatever Apply
    leaves behind, returning or panicking, has the cached pair of before
    unless the entry carried a Checksum, and has the store of before when the
    entry carried a Checksum or a VerifyChecksum or was a replay. *)
Theorem Apply_writes_apart (h : StateHandler) (ent : raft.Entry) :
  let cmd := bytesToCmd (raft.Cmd ent) in
  let left h' := (∃ r, Apply h ent = Done h' r) ∨ Apply h ent = Panic h' in
  ∀ h',
    left h' →
    ((∀ c, cmd ≠ Checksum c) →
     h_checksum h' = h_checksum h ∧ h_checksumIndex h' = h_checksumIndex h)
    ∧ (reads_only cmd = true ∨ raft.Index ent ≤ GetIndex h →
       h_state h' = h_state h).
Proof.
  intros cmd left h' Hleft.
  destruct (decide (raft.Index ent ≤ GetIndex h)) as [Hle|Hfresh].
  { unfold left in Hleft. rewrite Apply_replayed in Hleft by done.
    destruct Hleft as [[r [= <- _]]|[=]]. by split. }
  assert (GetIndex h < raft.Index ent) as Hlt by lia.
  destruct (reads_only cmd) eqn:Hro.
  - destruct cmd as [c|c| | | | | | | | | | | | | | | | | | ] eqn:Hc;
      try discriminate Hro; unfold left in Hleft.
    + rewrite (Apply_Checksum h ent c) in Hleft by done.
      destruct (state.checksum_blobs _ _ _).
      destruct Hleft as [[r [= <- _]]|[=]].
      split; [intros Hn; by destruct (Hn c)|done].
    + rewrite (Apply_VerifyChecksum h ent c), verifyChecksum_cases in Hleft by done.
      case_bool_decide; destruct Hleft as [[r Heq]|Heq]; try discriminate.
      injection Heq as <- _. by split.
  - unfold left in Hleft. rewrite Apply_write in Hleft by done.
    split; [intros _|intros [?|?]; [done|lia]].
    destruct (applyWrite _ _); destruct Hleft as [[r Heq]|Heq];
      try discriminate; injection Heq as <-; done.
Qed.

(** X16.  Apply never lowers the applied index and never sets it to
    anything but the index of the entry: whatever it leaves behind, returning
    or panicking, has an applied index that is the old one or, for an entry
    above the old one, the index of the entry. *)
Theorem Apply_index_monotone (h : StateHandler) (ent : raft.Entry) :
  let left h' := (∃ r, Apply h ent = Done h' r) ∨ Apply h ent = Panic h' in
  ∀ h',
    left h' →
    GetIndex h ≤ GetIndex h'
    ∧ (GetIndex h' = GetIndex h
       ∨ (GetIndex h < raft.Index ent ∧ GetIndex h' = raft.Index ent)).
Proof.
  intros left h' Hleft. unfold left in Hleft.
  assert (GetIndex h' = GetIndex h
          ∨ (GetIndex h < raft.Index ent ∧ GetIndex h' = raft.Index ent))
    as Hcases; [|split; [lia|done]].
  destruct (decide (raft.Index ent ≤ GetIndex h)) as [Hle|Hfresh].
  { rewrite Apply_replayed in Hleft by done.
    destruct Hleft as [[r [= <- _]]|[=]]. by left. }
  assert (GetIndex h < raft.Index ent) as Hlt by lia.
  destruct (reads_only (bytesToCmd (raft.Cmd ent))) eqn:Hro.
  - left.
    destruct (bytesToCmd (raft.Cmd ent))
      as [c|c| | | | | | | | | | | | | | | | | | ] eqn:Hc;
      try discriminate Hro.
    + rewrite (Apply_Checksum h ent c) in Hleft by done.
      destruct (state.checksum_blobs _ _ _).
      by destruct Hleft as [[r [= <- _]]|[=]].
    + rewrite (Apply_VerifyChecksum h ent c), verifyChecksum_cases in Hleft by done.
      case_bool_decide; destruct Hleft as [[r Heq]|Heq]; try discriminate.
      by injection Heq as <- _.
  - right. split; [done|].
    pose proof (Apply_write_index h ent Hlt Hro) as Hi.
    destruct Hleft as [[r Heq]|Heq]; by rewrite Heq in Hi.
Qed.


(** X18.  On a store whose partition bucket is in shape, Apply panics in
    one case only: a ChangeTract, outside read-only mode and above the
    applied index, for a blob that is found and a tract index equal to its
    tract count; and what the panic leaves behind is the store as it was with
    the index of the entry committed. *)
Theorem Apply_Panic_iff (h h' : StateHandler) (ent : raft.Entry) :
  let cmd := bytesToCmd (raft.Cmd ent) in
  partitions_ok (h_state h) →
  (∀ c, cmd = ChangeTract c → 0 ≤ core.Index (ChangeTractCommand.ID c)) →
  Apply h ent = Panic h' ↔
  GetIndex h < raft.Index ent
  ∧ state.read_only (h_state h) = false
  ∧ h' = set_state h (state.set_applied_index (h_state h) (raft.Index ent))
  ∧ ∃ c blob,
      cmd = ChangeTract c
      ∧ state.GetBlob (core.Blob (ChangeTractCommand.ID c)) (LocalReadOnlyTxn h)
        = Some blob
      ∧ core.Index (ChangeTractCommand.ID c) = len (pb.Tracts blob).
Proof.
  intros cmd Hok Hidx.
  destruct (decide (raft.Index ent ≤ GetIndex h)) as [Hle|Hfresh].
  { rewrite Apply_replayed by done. split; [done|]. intros [? _]. lia. }
  assert (GetIndex h < raft.Index ent) as Hlt by lia.
  destruct (reads_only cmd) eqn:Hro.
  { destruct cmd as [c|c| | | | | | | | | | | | | | | | | | ] eqn:Hc;
      try discriminate Hro.
    - rewrite (Apply_Checksum h ent c) by done.
      destruct (state.checksum_blobs _ _ _).
      split; [done|]. by intros (_ & _ & _ & c' & blob & [=] & _).
    - rewrite (Apply_VerifyChecksum h ent c), verifyChecksum_cases by done.
      split; [by case_bool_decide|]. by intros (_ & _ & _ & c' & blob & [=] & _). }
  rewrite Apply_write by done. fold cmd.
  set (txn := state.WriteTxn (h_state h) (raft.Index ent)).
  assert (Hpanic : ∀ txn', applyWrite cmd txn = Panic txn' ↔
            state.read_only (h_state h) = false
            ∧ txn' = txn
            ∧ ∃ c blob, cmd = ChangeTract c
                ∧ state.GetBlob (core.Blob (ChangeTractCommand.ID c)) txn = Some blob
                ∧ core.Index (ChangeTractCommand.ID c) = len (pb.Tracts blob)).
  { intros txn'. unfold applyWrite, state.GetReadOnlyMode. simpl.
    destruct (state.read_only (h_state h)) eqn:Hr.
    { split; [by destruct cmd|]. by intros [[=] _]. }
    destruct cmd as [| | | | | |c| | | | | |c| |c| | | | | ] eqn:Hc;
      cbn [dispatch returns returned];
      try (split; [done|]; by intros (_ & _ & c' & blob & [=] & _)).
    - split; [|by intros (_ & _ & c' & blob & [=] & _)].
      intros Hp. exfalso.
      destruct (CreateBlobCommand.apply c txn) eqn:Happ; try discriminate.
      by eapply (CreateBlob_no_panic c txn).
    - pose proof (ChangeTract_Panic_iff c txn txn' (Hidx c eq_refl)) as Hiff.
      destruct (ChangeTractCommand.apply c txn) as [t r|t|] eqn:Happ.
      + split; [done|]. intros (_ & Ht & c' & blob & [= <-] & Hb & Hl).
        by pose proof (proj2 Hiff (conj Ht (ex_intro _ blob (conj Hb Hl)))).
      + split.
        * intros [= ->]. destruct (proj1 Hiff eq_refl) as [Ht (blob & Hb & Hl)].
          split_and!; [done..|]. by exists c, blob.
        * intros (_ & Ht & c' & blob & [= <-] & Hb & Hl).
          pose proof (proj2 Hiff (conj Ht (ex_intro _ blob (conj Hb Hl)))) as Heq.
          by injection Heq as ->.
      + split; [done|]. intros (_ & Ht & c' & blob & [= <-] & Hb & Hl).
        by pose proof (proj2 Hiff (conj Ht (ex_intro _ blob (conj Hb Hl)))).
    - split; [|by intros (_ & _ & c' & blob & [=] & _)].
      intros Hp. exfalso.
      destruct (AllocateRSChunkIDsCommand.apply c txn) eqn:Happ; try discriminate.
      by eapply (AllocateRSChunkIDs_no_panic c txn). }
  destruct (applyWrite cmd txn) as [t r|t|] eqn:Hw.
  - split; [done|]. intros (_ & Hr & _ & c & blob & Hc & Hb & Hl).
    by pose proof (proj2 (Hpanic txn)
      (conj Hr (conj eq_refl (ex_intro _ c (ex_intro _ blob (conj Hc (conj Hb Hl))))))).
  - destruct (proj1 (Hpanic t) eq_refl) as (Hr & Ht & c & blob & Hc & Hb & Hl).
    rewrite Ht. split.
    + intros [= <-]. split_and!; [done..|]. by exists c, blob.
    + by intros (_ & _ & -> & _).
  - split; [done|]. intros (_ & Hr & _ & c & blob & Hc & Hb & Hl).
    by pose proof (proj2 (Hpanic txn)
      (conj Hr (conj eq_refl (ex_intro _ c (ex_intro _ blob (conj Hc (conj Hb Hl))))))).
Qed.

End ApplyFurther.

(** X19.  When CreateBlob fails with ErrGenBlobID (no partition has a blob
    key left), adding a partition that is new makes room: AddPartition
    succeeds, and the next CreateBlob returns the first blob of the new
    partition, (id, 1), stores it, and moves the partition's counter to 2. *)
Theorem CreateBlob_after_AddPartition (cmd : CreateBlobCommand.t)
    (add : AddPartitionCommand.t) (txn : state.Txn) (r : CreateBlobResult.t) :
  let id := AddPartitionCommand.ID add in
  let txn1 := (AddPartitionCommand.apply add txn).1 in
  is_uint32 id →
  state.GetPartition id txn = None →
  CreateBlobCommand.apply cmd txn = Done txn r →
  CreateBlobResult.Err r = core.ErrGenBlobID →
  (AddPartitionCommand.apply add txn).2 = {| apr_Err := core.NoError |}
  ∧ ∃ txn2,
      CreateBlobCommand.apply cmd txn1
      = Done txn2 {| CreateBlobResult.ID := (id, 1);
                     CreateBlobResult.Err := core.NoError |}
      ∧ state.GetBlob (id, 1) txn2 = Some (created_blob cmd)
      ∧ state.GetPartition id txn2
        = Some {| pb.Id := Some id; pb.NextBlobKey := Some 2;
                  pb.NextRsChunkKey := None |}.
Proof.
  intros id txn1 Hid Hnew Hfull Herr.
  assert (∀ k p, state.GetPartition k txn = Some p →
                 pb.GetNextBlobKey p = core.MaxBlobKey) as Hall.
  { destruct (CreateBlob_inv cmd txn) as [[Hall _]|(k & p & _ & _ & _ & Hc)];
      [done|].
    destruct (pb.NextBlobKey p); rewrite Hc in Hfull; [|done].
    injection Hfull as _ <-. done. }
  split.
  { unfold AddPartitionCommand.apply, addPartition. fold id. by rewrite Hnew. }
  assert (∀ k, state.GetPartition k txn1
               = match state.GetPartition k txn with
                 | Some p => Some p
                 | None => if bool_decide (k = id) then Some (new_partition id)
                           else None
                 end) as Hlook.
  { intros k. unfold txn1. rewrite AddPartition_apply_fst.
    by apply addPartition_lookup. }
  destruct (CreateBlob_inv cmd txn1) as [[Hall1 _]|(k & p & Hl & Hnf & _ & Hc)].
  { pose proof (Hlook id) as Hl. rewrite Hnew, bool_decide_eq_true_2 in Hl by done.
    by pose proof (Hall1 id _ Hl). }
  assert (state.GetPartition k txn1 = Some p) as Hg by exact Hl.
  rewrite Hlook in Hg.
  destruct (state.GetPartition k txn) as [q|] eqn:Hq.
  { injection Hg as ->. by destruct Hnf; apply (Hall k). }
  case_bool_decide as Hk; [|done]. injection Hg as <-. subst k.
  cbn [new_partition pb.NextBlobKey pb.Id pb.NextRsChunkKey] in Hc.
  eexists. split; [exact Hc|]. split.
  - by apply GetBlob_PutBlob.
  - unfold state.GetPartition, state.PutBlob, state.PutPartition. simpl.
    by rewrite lookup_insert_eq.
Qed.

Lemma Checksum_then_VerifyChecksum_witness :
  let h1 := {| h_state := sample.store; h_checksum := 3; h_checksumIndex := 8 |} in
  @Apply sample.decls sample.layer (sample_checks 3) sample.handler (sample.entry 8)
  = Done h1 (OfChecksum {| cr_Next := (0, 0); cr_Checksum := 3; cr_Index := 8 |})
  ∧ @Apply sample.decls sample.layer (sample_checks 3) h1 (sample_verify 9)
    = Done h1 Nil.
Proof.
  intros h1.
  destruct (@Checksum_then_VerifyChecksum sample.decls sample.layer
              (sample_checks 3) sample.handler (sample.entry 8)
              {| ChecksumCommand.Start := (0, 0); ChecksumCommand.N := 10 |}
              eq_refl eq_refl) as (h1' & r1 & Happ & _ & _ & Hnext).
  assert (Done h1' (OfChecksum r1)
          = Done h1 (OfChecksum {| cr_Next := (0, 0); cr_Checksum := 3;
                                   cr_Index := 8 |})) as [= -> ->]
    by (rewrite <- Happ; reflexivity).
  split; [reflexivity|].
  destruct (Hnext (sample_verify 9)
              {| VerifyChecksumCommand.Index := 8;
                 VerifyChecksumCommand.Checksum := 3 |} eq_refl eq_refl)
    as (Hsame & _ & _).
  apply Hsame; reflexivity.
Defined.

Lemma Apply_writes_apart_witness :
  ∃ h' r,
    sample.run sample.create sample.handler 8 = Done h' r
    ∧ h_checksum h' = h_checksum sample.handler
    ∧ h_checksumIndex h' = h_checksumIndex sample.handler.
Proof.
  eexists _, _. split; [reflexivity|].
  apply (@Apply_writes_apart sample.decls sample.layer
           (sample.decoder sample.create) sample.handler (sample.entry 8)).
  - left. eexists. reflexivity.
  - intros c. discriminate.
Defined.

Lemma Apply_index_monotone_witness :
  ∃ h' r,
    sample.run sample.create sample.handler 8 = Done h' r
    ∧ GetIndex sample.handler ≤ GetIndex h'.
Proof.
  eexists _, _. split; [reflexivity|].
  apply (@Apply_index_monotone sample.decls sample.layer
           (sample.decoder sample.create) sample.handler (sample.entry 8)).
  left. eexists. reflexivity.
Defined.

Lemma Apply_Panic_iff_witness :
  sample.run (sample_change_at 1) sample.handler 8
  = Panic (set_state sample.handler (state.set_applied_index sample.store 8)).
Proof.
  apply (proj2 (@Apply_Panic_iff sample.decls sample.layer
                  (sample.decoder (sample_change_at 1)) sample.handler
                  (set_state sample.handler (state.set_applied_index sample.store 8))
                  (sample.entry 8) sample_partitions_ok
                  ltac:(intros c [= <-]; simpl; lia))).
  split_and!; [reflexivity..|].
  eexists _, (sample.blob None [sample.tract0]). split_and!; reflexivity.
Defined.

Lemma CreateBlob_after_AddPartition_witness :
  let cmd := {| CreateBlobCommand.Repl := 3; CreateBlobCommand.Hint := 0;
                CreateBlobCommand.InitialTime := 100;
                CreateBlobCommand.Expires := 0 |} in
  let add := {| AddPartitionCommand.ID := 5 |} in
  let full := {| CreateBlobResult.ID := zeroBlobID;
                 CreateBlobResult.Err := core.ErrGenBlobID |} in
  CreateBlobCommand.apply cmd sample_full = Done sample_full full
  ∧ ∃ txn2,
      CreateBlobCommand.apply cmd (AddPartitionCommand.apply add sample_full).1
      = Done txn2 {| CreateBlobResult.ID := (5, 1);
                     CreateBlobResult.Err := core.NoError |}.
Proof.
  intros cmd add full.
  assert (CreateBlobCommand.apply cmd sample_full = Done sample_full full)
    as Hfull by (vm_compute; reflexivity).
  split; [exact Hfull|].
  destruct (CreateBlob_after_AddPartition cmd add sample_full full
              ltac:(unfold is_uint32; simpl; lia) eq_refl Hfull eq_refl)
    as (_ & txn2 & Happ & _).
  by exists txn2.
Defined.
